(** * bindgen-hashmap: a chained hash map keyed by SipHash-2-4

    Shallow embedding of [src/hashmap.c] and [src/hashmap.h], followed by the
    properties of the specification that were checked against it.

    Modelling conventions.
    - [size_t] and [uint64_t] are [N] with the wrap-around at [2^64] written
      out ([wrap64]).
    - [void *] values are addresses in [N]; [NULL] is address 0.
    - [const char *] keys are [option string]: [None] is the NULL pointer.
    - [HashMap *] is [option HashMap]; a function that writes through the
      pointer returns the new pointee.
    - A bucket chain [Entry *] is the list of its nodes (the [next] link is
      the list tail); a slot of the bucket array that was never written
      holds whatever the allocator left there ([Wild] unless the word
      happens to be zero).
    - Dereferencing NULL or a wild pointer, dividing by zero and indexing
      past a block are undefined behaviour in C; the model stops with a
      [Fault].
    - What the allocator and [rand] answer is an input of the functions that
      call them.  The node allocations of [hashmap_insert] ([calloc],
      [strdup]) are taken to succeed. *)

From Stdlib Require Import NArith Lia.
From Stdlib.Strings Require Import Byte.
From stdpp Require Import base option numbers list strings.

Open Scope N_scope.

(** ** Outcomes of a C call *)

Inductive fault := NullDeref | WildDeref | DivByZero | OutOfBounds.

Inductive outcome (A : Type) : Type :=
| Ok (a : A)
| Fault (f : fault).
Arguments Ok {A} a.
Arguments Fault {A} f.

#[global] Instance outcome_ret : MRet outcome := fun _ a => Ok a.
#[global] Instance outcome_bind : MBind outcome := fun _ _ f x =>
  match x with
  | Ok a => f a
  | Fault e => Fault e
  end.

(** ** Data model (hashmap.h) *)

Definition voidp := N.
Definition NULL : voidp := 0.

(** [struct Entry]; the [next] field is the tail of the chain. *)
Record Entry := mkEntry { key : string; value : voidp }.

(** One element of the [Entry **entries] block. *)
Inductive Slot :=
| Wild
| Head (chain : list Entry).

(** [struct HashMap].  The C field [key] (the 16 byte SipHash key) is named
    [secret] here, [key] being the field of [Entry]. *)
Record HashMap := mkHashMap {
  len : N;
  buckets : N;
  secret : list byte;
  entries : option (list Slot)
}.

Definition set_buckets (n : N) (m : HashMap) : HashMap :=
  {| len := len m; buckets := n; secret := secret m; entries := entries m |}.

Definition set_entries (es : option (list Slot)) (m : HashMap) : HashMap :=
  {| len := len m; buckets := buckets m; secret := secret m; entries := es |}.

(** ** Machine arithmetic *)

Definition wrap64 (n : N) : N := n mod 2 ^ 64.

(** [a % b] on unsigned operands. *)
Definition umod (a b : N) : outcome N :=
  if b =? 0 then Fault DivByZero else Ok (a mod b).

(** ** The allocator *)

(** Content of one pointer-sized word of a block that was not cleared. *)
Inductive Word := Zeroed | Garbage.

Definition slot_of_word (w : Word) : Slot :=
  match w with
  | Zeroed => Head []
  | Garbage => Wild
  end.

(** Answer of [realloc]: NULL, or a block whose bytes beyond the copied
    prefix are [fresh]. *)
Inductive ReallocResult :=
| ReallocNull
| ReallocBlock (fresh : nat -> Word).

(** Answer of [calloc]. *)
Inductive CallocResult := CallocNull | CallocBlock.

Definition sizeof_slot : N := 8.

(** [realloc(old, size)] on a block of slots. *)
Definition realloc (r : ReallocResult) (old : option (list Slot)) (size : N)
  : option (list Slot) :=
  match r with
  | ReallocNull => None
  | ReallocBlock fresh =>
      let n := N.to_nat (size / sizeof_slot) in
      let kept := take n (default [] old) in
      Some (kept ++ ((fun i => slot_of_word (fresh i))
                       <$> seq (length kept) (n - length kept)%nat))
  end.

(** [calloc(n, sizeof_slot)]: fails when the product overflows. *)
Definition calloc_slots (c : CallocResult) (n : N) : option (list Slot) :=
  match c with
  | CallocNull => None
  | CallocBlock =>
      if 2 ^ 64 <=? n * sizeof_slot then None
      else Some (replicate (N.to_nat n) (Head []))
  end.

(** [block[i] = s]. *)
Definition store_slot (block : option (list Slot)) (i : nat) (s : Slot)
  : outcome (option (list Slot)) :=
  match block with
  | None => Fault NullDeref
  | Some es =>
      if decide (i < length es)%nat then Ok (Some (<[i := s]> es))
      else Fault OutOfBounds
  end.

(** [for (size_t i = lo; i < hi; i++) block[i] = NULL;] *)
Definition store_nulls (block : option (list Slot)) (lo hi : N)
  : outcome (option (list Slot)) :=
  foldl (fun acc i => b ← acc; store_slot b i (Head []))
        (Ok block)
        (seq (N.to_nat lo) (N.to_nat hi - N.to_nat lo)%nat).

Section WithSipHash.

(** [siphash(in, inlen, k, out, outlen)] of [siphash/siphash.h], which is not
    part of the sources: the bytes it writes to [out]. *)
Variable siphash : string -> list byte -> nat -> list byte.

(** ** hashmap.c *)

(** [hashmap_hash_key(map, key, &hash)]; the argument [hash] is the content
    of [*hash] at the call and the result its content at the return. *)
Definition hashmap_hash_key (map : option HashMap) (k : option string)
    (hash : N) : N :=
  match map, k with
  | Some m, Some s =>
      let hash_bytes := siphash s (secret m) 8 in
      foldl (fun h i =>
               N.lor h (N.shiftl (Byte.to_N (nth i hash_bytes x00))
                                 (N.of_nat i * 8)))
            0 (seq 0 8)
  | _, _ => hash
  end.

Definition hashmap_grow (r : ReallocResult) (map : option HashMap)
    (new_buckets : N) : outcome (option HashMap) :=
  match map with
  | None => Ok None
  | Some m =>
      if new_buckets <=? buckets m then Ok (Some m)
      else
        let m := set_buckets new_buckets m in
        let m :=
          set_entries
            (realloc r (entries m) (wrap64 (new_buckets * sizeof_slot))) m in
        es ← store_nulls (entries m) (buckets m) new_buckets;
        Ok (Some (set_entries es m))
  end.

(** The test [map->len * 4 >= map->buckets * 3]. *)
Definition load_factor_high (m : HashMap) : bool :=
  wrap64 (buckets m * 3) <=? wrap64 (len m * 4).

Definition hashmap_grow_if_needed (r : ReallocResult) (map : option HashMap)
  : outcome (option HashMap) :=
  match map with
  | None => Ok None
  | Some m =>
      if buckets m =? 0 then hashmap_grow r map 8
      else if load_factor_high m
           then hashmap_grow r map (wrap64 (buckets m * 2))
           else Ok map
  end.

(** [hashmap_new()]: [calloc_ok] tells whether the map itself could be
    allocated, [rand i] is the answer of the [i]-th call of [rand]. *)
Definition hashmap_new (calloc_ok : bool) (rand : nat -> N) : option HashMap :=
  if calloc_ok then
    Some {| len := 0;
            buckets := 0;
            secret := (fun i => default x00 (Byte.of_N (rand i mod 256)))
                        <$> seq 0 16;
            entries := None |}
  else None.

Definition hashmap_with_buckets (calloc_ok : bool) (rand : nat -> N)
    (c : CallocResult) (n : N) : outcome (option HashMap) :=
  match hashmap_new calloc_ok rand with
  | None => Ok None
  | Some m =>
      let m := set_buckets n m in
      let m := set_entries (calloc_slots c n) m in
      es ← store_nulls (entries m) 0 n;
      Ok (Some (set_entries es m))
  end.

(** [strcmp(a, b) == 0] with [a] a stored key. *)
Definition strcmp_eq0 (a : string) (b : option string) : outcome bool :=
  match b with
  | None => Fault NullDeref
  | Some s => Ok (String.eqb a s)
  end.

(** [strdup(k)]: the copy of the key.  The allocation is taken to succeed;
    a NULL argument is read through. *)
Definition strdup (k : option string) : outcome string :=
  match k with
  | None => Fault NullDeref
  | Some s => Ok s
  end.

(** [map->entries[bucket]], followed as a chain. *)
Definition load_chain (es : list Slot) (bucket : N) : outcome (list Entry) :=
  match es !! N.to_nat bucket with
  | None => Fault OutOfBounds
  | Some Wild => Fault WildDeref
  | Some (Head c) => Ok c
  end.

(** The loop of [hashmap_insert] and the code after it: the old value and
    the chain as it is left. *)
Fixpoint chain_insert (chain : list Entry) (k : option string) (v : voidp)
  : outcome (voidp * list Entry) :=
  match chain with
  | e :: rest =>
      same ← strcmp_eq0 (key e) k;
      if same : bool then Ok (value e, {| key := key e; value := v |} :: rest)
      else
        '(old, rest') ← chain_insert rest k v;
        Ok (old, e :: rest')
  | [] =>
      s ← strdup k;
      Ok (NULL, [ {| key := s; value := v |} ])
  end.

(** The loop of [hashmap_get]. *)
Fixpoint chain_get (chain : list Entry) (k : option string) : outcome voidp :=
  match chain with
  | e :: rest =>
      same ← strcmp_eq0 (key e) k;
      if same : bool then Ok (value e) else chain_get rest k
  | [] => Ok NULL
  end.

(** The loop of [hashmap_remove]. *)
Fixpoint chain_remove (chain : list Entry) (k : option string)
  : outcome (voidp * list Entry) :=
  match chain with
  | e :: rest =>
      same ← strcmp_eq0 (key e) k;
      if same : bool then Ok (value e, rest)
      else
        '(v, rest') ← chain_remove rest k;
        Ok (v, e :: rest')
  | [] => Ok (NULL, [])
  end.

Definition hashmap_insert (r : ReallocResult) (map : option HashMap)
    (k : option string) (v : voidp) : outcome (voidp * option HashMap) :=
  map ← hashmap_grow_if_needed r map;
  match map with
  | None => Fault NullDeref
  | Some m =>
      match entries m with
      | None => Ok (NULL, Some m)
      | Some es =>
          let hash := hashmap_hash_key (Some m) k 0 in
          bucket ← umod hash (buckets m);
          chain ← load_chain es bucket;
          '(old, chain') ← chain_insert chain k v;
          Ok (old,
              Some (set_entries
                      (Some (<[N.to_nat bucket := Head chain']> es)) m))
      end
  end.

Definition hashmap_get (map : option HashMap) (k : option string)
  : outcome voidp :=
  match map with
  | None => Ok NULL
  | Some m =>
      match entries m with
      | None => Ok NULL
      | Some es =>
          let hash := hashmap_hash_key (Some m) k 0 in
          bucket ← umod hash (buckets m);
          chain ← load_chain es bucket;
          chain_get chain k
      end
  end.

Definition hashmap_remove (map : option HashMap) (k : option string)
  : outcome (voidp * option HashMap) :=
  match map with
  | None => Ok (NULL, None)
  | Some m =>
      match entries m with
      | None => Ok (NULL, Some m)
      | Some es =>
          let hash := hashmap_hash_key (Some m) k 0 in
          bucket ← umod hash (buckets m);
          chain ← load_chain es bucket;
          '(v, chain') ← chain_remove chain k;
          Ok (v,
              Some (set_entries
                      (Some (<[N.to_nat bucket := Head chain']> es)) m))
      end
  end.

End WithSipHash.

(** Modelled from the spec: [hashmap_len] is declared in hashmap.h
    ("Returns the number of keys stored in the HashMap") and defined nowhere
    in the sources.  The spec's [size] returns the current key count, the
    [count] field of the table, which is the field [len] of [struct HashMap]. *)
Definition hashmap_len (map : HashMap) : N := len map.

(** ** Calls on a live table *)

Inductive Op :=
| Insert (k : option string) (v : voidp)
| Get (k : option string)
| Remove (k : option string).

Definition pointee (map : option HashMap) : outcome HashMap :=
  match map with
  | Some m => Ok m
  | None => Fault NullDeref
  end.

Section Runs.

Variable siphash : string -> list byte -> nat -> list byte.

(** The index [hash % map->buckets] that the three operations compute. *)
Definition bucket_of (m : HashMap) (k : option string) : nat :=
  N.to_nat (hashmap_hash_key siphash (Some m) k 0 mod buckets m).

(** One call on the table [m]; [r] is what [realloc] answers if the call
    reaches it. *)
Definition exec (r : ReallocResult) (op : Op) (m : HashMap)
  : outcome (voidp * HashMap) :=
  match op with
  | Insert k v =>
      '(old, map) ← hashmap_insert siphash r (Some m) k v;
      m' ← pointee map;
      Ok (old, m')
  | Get k =>
      v ← hashmap_get siphash (Some m) k;
      Ok (v, m)
  | Remove k =>
      '(v, map) ← hashmap_remove siphash (Some m) k;
      m' ← pointee map;
      Ok (v, m')
  end.

(** A sequence of calls, with the results they return. *)
Fixpoint run (tr : list (ReallocResult * Op)) (m : HashMap)
  : outcome (list voidp * HashMap) :=
  match tr with
  | [] => Ok ([], m)
  | (r, op) :: tr =>
      '(v, m) ← exec r op m;
      '(vs, m) ← run tr m;
      Ok (v :: vs, m)
  end.

(** The tables a program can hold: made by a constructor, then used through
    [hashmap_insert], [hashmap_get] and [hashmap_remove]. *)
Inductive reachable : HashMap -> Prop :=
| reach_new rand m :
    hashmap_new true rand = Some m -> reachable m
| reach_with_buckets rand c n m :
    n < 2 ^ 64 ->
    hashmap_with_buckets true rand c n = Ok (Some m) -> reachable m
| reach_exec r op m v m' :
    reachable m -> exec r op m = Ok (v, m') -> reachable m'.

End Runs.

(** Number of nodes in the chains of a table. *)
Definition slot_nodes (s : Slot) : nat :=
  match s with
  | Wild => 0
  | Head c => length c
  end.

Definition node_count (m : HashMap) : nat :=
  sum_list (slot_nodes <$> default [] (entries m)).

(** The keys of the nodes, slot by slot, in chain order. *)
Definition slot_keys (s : Slot) : option (list string) :=
  match s with
  | Wild => None
  | Head c => Some (key <$> c)
  end.

Definition table_keys (m : HashMap) : option (list (option (list string))) :=
  fmap (M := list) slot_keys <$> entries m.

(** [realloc] answers that fill the new bytes uniformly. *)
Definition zero_filled : ReallocResult := ReallocBlock (fun _ => Zeroed).
Definition uncleared : ReallocResult := ReallocBlock (fun _ => Garbage).

(** A digest function to run the model on explicit inputs: the output is the
    key read backwards, so that the last character selects the bucket. *)
Definition sample_siphash (s : string) (k : list byte) (outlen : nat)
  : list byte :=
  take outlen (rev (String.list_byte_of_string s)).

(** ** The operations as computations on the table behind [map] *)

(** A computation that reads and writes the [struct HashMap] behind a
    pointer that is not NULL: from the table at the call to the result and
    the table at the return. *)
Definition table_op (A : Type) : Type := HashMap -> outcome (A * HashMap).

#[global] Instance table_op_ret : MRet table_op := fun _ a t => Ok (a, t).
#[global] Instance table_op_bind : MBind table_op := fun _ _ f x t =>
  match x t with
  | Ok (a, t') => f a t'
  | Fault e => Fault e
  end.

(** [map->field] read, [map->field = ..] written, and a step that touches no
    field. *)
Definition load {A} (field : HashMap -> A) : table_op A :=
  fun t => Ok (field t, t).

Definition store (update : HashMap -> HashMap) : table_op unit :=
  fun t => Ok (tt, update t).

Definition lift {A} (x : outcome A) : table_op A :=
  fun t =>
    match x with
    | Ok a => Ok (a, t)
    | Fault e => Fault e
    end.

Section StorePassing.

Variable siphash : string -> list byte -> nat -> list byte.

Definition hashmap_grow_on (r : ReallocResult) (new_buckets : N)
  : table_op unit :=
  b ← load buckets;
  if new_buckets <=? b then mret tt
  else
    store (set_buckets new_buckets);;
    es ← load entries;
    store (set_entries (realloc r es (wrap64 (new_buckets * sizeof_slot))));;
    lo ← load buckets;
    es ← load entries;
    es ← lift (store_nulls es lo new_buckets);
    store (set_entries es).

Definition hashmap_grow_if_needed_on (r : ReallocResult) : table_op unit :=
  b ← load buckets;
  if b =? 0 then hashmap_grow_on r 8
  else
    high ← load load_factor_high;
    if high : bool then hashmap_grow_on r (wrap64 (b * 2)) else mret tt.

Definition hashmap_insert_on (r : ReallocResult) (k : option string)
    (v : voidp) : table_op voidp :=
  hashmap_grow_if_needed_on r;;
  es ← load entries;
  match es with
  | None => mret NULL
  | Some es =>
      hash ← load (fun t => hashmap_hash_key siphash (Some t) k 0);
      n ← load buckets;
      bucket ← lift (umod hash n);
      chain ← lift (load_chain es bucket);
      '(old, chain') ← lift (chain_insert chain k v);
      store (set_entries (Some (<[N.to_nat bucket := Head chain']> es)));;
      mret old
  end.

Definition hashmap_get_on (k : option string) : table_op voidp :=
  es ← load entries;
  match es with
  | None => mret NULL
  | Some es =>
      hash ← load (fun t => hashmap_hash_key siphash (Some t) k 0);
      n ← load buckets;
      bucket ← lift (umod hash n);
      chain ← lift (load_chain es bucket);
      lift (chain_get chain k)
  end.

Definition hashmap_remove_on (k : option string) : table_op voidp :=
  es ← load entries;
  match es with
  | None => mret NULL
  | Some es =>
      hash ← load (fun t => hashmap_hash_key siphash (Some t) k 0);
      n ← load buckets;
      bucket ← lift (umod hash n);
      chain ← lift (load_chain es bucket);
      '(v, chain') ← lift (chain_remove chain k);
      store (set_entries (Some (<[N.to_nat bucket := Head chain']> es)));;
      mret v
  end.

End StorePassing.

(** ** Predicates on tables *)

(** Whether some node of the table holds the key [k]. *)
Definition chain_has (k : string) (c : list Entry) : bool :=
  existsb (fun e => String.eqb (key e) k) c.

Definition slot_has (k : string) (s : Slot) : bool :=
  match s with
  | Wild => false
  | Head c => chain_has k c
  end.

Definition has_key (m : HashMap) (k : string) : bool :=
  existsb (slot_has k) (default [] (entries m)).

(** Whether the slot that a call on [k] reads holds a chain: the table has
    no bucket storage, or the slot is in range and was initialised. *)
Definition bucket_ready (siphash : string -> list byte -> nat -> list byte)
    (m : HashMap) (k : option string) : bool :=
  match entries m with
  | None => true
  | Some es =>
      negb (buckets m =? 0) &&
      match es !! bucket_of siphash m k with
      | Some (Head _) => true
      | _ => false
      end
  end.

(** Whether a sequence of calls contains an insert. *)
Definition is_insert (c : ReallocResult * Op) : bool :=
  match snd c with
  | Insert _ _ => true
  | _ => false
  end.

Definition has_insert (tr : list (ReallocResult * Op)) : bool :=
  existsb is_insert tr.

(** No chain holds a key twice. *)
Definition slot_nodup (s : Slot) : Prop :=
  match s with
  | Wild => True
  | Head c => NoDup (key <$> c)
  end.

(** What holds of every table a program can hold. *)
Record table_inv (m : HashMap) : Prop := {
  inv_len : len m = 0;
  inv_buckets : buckets m < 2 ^ 64;
  inv_nodup : Forall slot_nodup (default [] (entries m));
  inv_unsized : buckets m = 0 -> entries m = None \/ entries m = Some []
}.

(** Two runs of one program that met different allocator answers: the slots
    agree, except that a slot no call has touched may be an empty chain in
    one run and garbage in the other. *)
Definition blank (s : Slot) : Prop := s = Wild \/ s = Head [].

Definition slot_sim (s1 s2 : Slot) : Prop :=
  s1 = s2 \/ (blank s1 /\ blank s2).

Definition table_sim (m1 m2 : HashMap) : Prop :=
  len m1 = len m2 /\ buckets m1 = buckets m2 /\ secret m1 = secret m2 /\
  option_Forall2 (Forall2 slot_sim) (entries m1) (entries m2).

(** [realloc] fails in both runs or in neither. *)
Definition same_answer (r1 r2 : ReallocResult) : Prop :=
  match r1, r2 with
  | ReallocNull, ReallocNull => True
  | ReallocBlock _, ReallocBlock _ => True
  | _, _ => False
  end.

Definition same_call (c1 c2 : ReallocResult * Op) : Prop :=
  same_answer (fst c1) (fst c2) /\ snd c1 = snd c2.

(** The table of [hashmap_new] when every call of [rand] answers 0. *)
Definition fresh_table : HashMap :=
  {| len := 0; buckets := 0; secret := replicate 16 x00; entries := None |}.

(** The table a sequence of calls leaves (the table it started from if a
    call faults). *)
Definition table_after (siphash : string -> list byte -> nat -> list byte)
    (tr : list (ReallocResult * Op)) (m : HashMap) : HashMap :=
  match run siphash tr m with
  | Ok (_, m') => m'
  | Fault _ => m
  end.

(** A [realloc] answer whose new block is zero in word 1 only. *)
Definition zero_at_1 : ReallocResult :=
  ReallocBlock (fun i => if Nat.eqb i 1 then Zeroed else Garbage).

(** ** Destruction (hashmap.c, [hashmap_free]) *)

(** The read of [entries[i]] in the loop of [hashmap_free], followed as a
    chain: the nodes the inner loop releases. *)
Definition free_chain_at (es : option (list Slot)) (i : nat)
  : outcome (list Entry) :=
  match es with
  | None => Fault NullDeref
  | Some l => load_chain l (N.of_nat i)
  end.

(** [hashmap_free(map)].  The argument is the content of the [HashMap **]:
    [None] for a NULL argument, [Some None] for a handle that holds NULL.
    The result lists the nodes released, in the order of the calls (of each
    node the key copy, the value and the node itself are passed to [free]),
    and gives the content of the handle at the return. *)
Definition hashmap_free (map : option (option HashMap))
  : outcome (list Entry * option (option HashMap)) :=
  match map with
  | None => Ok ([], None)
  | Some None => Ok ([], Some None)
  | Some (Some m) =>
      freed ← foldl (fun acc i =>
                       done ← acc;
                       c ← free_chain_at (entries m) i;
                       Ok (done ++ c))
                    (Ok [])
                    (seq 0 (N.to_nat (buckets m)));
      Ok (freed, Some None)
  end.

(** ** More predicates on tables *)

(** The nodes of a table, slot by slot, in chain order. *)
Definition slot_chain (s : Slot) : list Entry :=
  match s with
  | Wild => []
  | Head c => c
  end.

Definition table_nodes (m : HashMap) : list Entry :=
  concat (slot_chain <$> default [] (entries m)).

Definition slot_is_head (s : Slot) : bool :=
  match s with
  | Wild => false
  | Head _ => true
  end.

(** Bucket storage that has one initialised slot per bucket. *)
Definition clean_slots (m : HashMap) (es : list Slot) : bool :=
  (N.of_nat (length es) =? buckets m) && forallb slot_is_head es.

(** A table every call can work on: it has buckets, and storage with one
    initialised slot per bucket. *)
Definition usable (m : HashMap) : bool :=
  match entries m with
  | None => false
  | Some es => negb (buckets m =? 0) && clean_slots m es
  end.

(** A table as [hashmap_new] makes it. *)
Definition unsized (m : HashMap) : bool :=
  match entries m with
  | None => buckets m =? 0
  | Some _ => false
  end.

(** A table whose first growth failed: it counts buckets and has no
    storage. *)
Definition inert (m : HashMap) : bool :=
  match entries m with
  | None => negb (buckets m =? 0)
  | Some _ => false
  end.

(** A table [hashmap_free] can walk: no bucket and no storage, or storage
    with one initialised slot per bucket. *)
Definition freeable (m : HashMap) : bool :=
  match entries m with
  | None => buckets m =? 0
  | Some es => clean_slots m es
  end.

(** A call whose key is not NULL. *)
Definition keyed (op : Op) : bool :=
  match op with
  | Insert (Some _) _ | Get (Some _) | Remove (Some _) => true
  | _ => false
  end.

(** [realloc] fails or hands out zero filled memory. *)
Definition tame (r : ReallocResult) : Prop :=
  r = ReallocNull \/ r = zero_filled.

(** What the three kinds of table have in common: no call on them can
    fault. *)
Definition sound (m : HashMap) : bool := unsized m || usable m || inert m.

(** A call [hashmap_insert(map, k, v)] with the answer of [realloc]. *)
Definition insert_call (x : ReallocResult * string * voidp)
  : ReallocResult * Op :=
  (fst (fst x), Insert (Some (snd (fst x))) (snd x)).

Definition call_key (x : ReallocResult * string * voidp) : string :=
  snd (fst x).

Definition call_value (x : ReallocResult * string * voidp) : voidp := snd x.

(** Every node sits in the bucket its key selects. *)
Definition placed (siphash : string -> list byte -> nat -> list byte)
    (m : HashMap) : Prop :=
  forall es i c e,
    entries m = Some es -> es !! i = Some (Head c) -> e ∈ c ->
    bucket_of siphash m (Some (key e)) = i.

(** The values the table owns. *)
Definition table_values (m : HashMap) : list voidp :=
  value <$> table_nodes m.

(** Tables to run the further properties on: "key1" stored with zero
    filled storage, then "key2" as well; a table whose first growth failed;
    a table whose storage is zero in word 1 only. *)
Definition one_key_table : HashMap :=
  table_after sample_siphash
    [(zero_filled, Insert (Some "key1"%string) 5)] fresh_table.

Definition two_key_table : HashMap :=
  table_after sample_siphash
    [(zero_filled, Insert (Some "key2"%string) 6)] one_key_table.

Definition failed_table : HashMap :=
  table_after sample_siphash
    [(ReallocNull, Insert (Some "key1"%string) 5)] fresh_table.

Definition patchy_table : HashMap :=
  table_after sample_siphash
    [(zero_at_1, Insert (Some "key1"%string) 5)] fresh_table.

(** * Properties *)

(** ** Working with outcomes *)

Lemma bind_Ok {A B} (x : outcome A) (f : A -> outcome B) (b : B) :
  x ≫= f = Ok b <-> exists a, x = Ok a /\ f a = Ok b.
Proof.
  destruct x as [a|e]; simpl; split.
  - intros H. exists a. auto.
  - intros (a' & Ha & Hf). congruence.
  - discriminate.
  - intros (a' & Ha & _). discriminate.
Qed.

Lemma bind_Ok_l {A B} (a : A) (f : A -> outcome B) : Ok a ≫= f = f a.
Proof. reflexivity. Qed.

Ltac ok_inv :=
  repeat match goal with
  | H : _ ≫= _ = Ok _ |- _ =>
      let a := fresh "a" in
      let Ha := fresh "Ha" in
      apply bind_Ok in H; destruct H as (a & Ha & H); cbv beta in H
  | H : (let (_, _) := ?p in _) = Ok _ |- _ => destruct p
  end; simplify_eq.

(** ** Growth *)

Lemma hashmap_new_fields ok rand m :
  hashmap_new ok rand = Some m ->
  len m = 0 /\ buckets m = 0 /\ entries m = None.
Proof.
  unfold hashmap_new. destruct ok; [|discriminate].
  intros H. injection H as <-. auto.
Qed.

Lemma store_nulls_empty_range (block : option (list Slot)) (n : N) :
  store_nulls block n n = Ok block.
Proof. unfold store_nulls. rewrite Nat.sub_diag. reflexivity. Qed.

(** The loop of [hashmap_grow] starts at the bucket count it has just
    stored: the block is left as [realloc] returned it. *)
Lemma hashmap_grow_eq r m n :
  hashmap_grow r (Some m) n =
  Ok (Some (if n <=? buckets m then m
            else {| len := len m;
                    buckets := n;
                    secret := secret m;
                    entries := realloc r (entries m)
                                 (wrap64 (n * sizeof_slot)) |})).
Proof.
  unfold hashmap_grow. destruct (n <=? buckets m); [reflexivity|].
  cbn [set_buckets set_entries buckets entries len secret].
  rewrite store_nulls_empty_range. reflexivity.
Qed.

Lemma hashmap_grow_fields r m n m' :
  hashmap_grow r (Some m) n = Ok (Some m') ->
  len m' = len m /\ secret m' = secret m /\
  buckets m <= buckets m' /\
  (buckets m' = buckets m \/ buckets m' = n).
Proof.
  rewrite hashmap_grow_eq. intros H. ok_inv.
  destruct (N.leb_spec n (buckets m)); cbn; repeat split; auto; lia.
Qed.

Lemma wrap64_lt n : wrap64 n < 2 ^ 64.
Proof. unfold wrap64. apply N.mod_upper_bound. discriminate. Qed.

(** With [len = 0] the doubling test is false on every table that has
    buckets. *)
Lemma load_factor_low m :
  len m = 0 -> buckets m <> 0 -> buckets m < 2 ^ 64 ->
  load_factor_high m = false.
Proof.
  intros Hl Hb Hlt. unfold load_factor_high, wrap64. rewrite Hl.
  apply N.leb_gt. change (0 * 4) with 0. rewrite N.Div0.mod_0_l.
  apply N.neq_0_lt_0. intros H.
  apply N.Div0.mod_divides in H. destruct H as [c Hc].
  change (2 ^ 64) with 18446744073709551616 in *.
  assert (c = 0 \/ c = 1 \/ c = 2) as [->|[->| ->]] by lia; lia.
Qed.

Lemma hashmap_grow_if_needed_fields r m m' :
  hashmap_grow_if_needed r (Some m) = Ok (Some m') ->
  len m' = len m /\ secret m' = secret m /\ buckets m <= buckets m' /\
  buckets m' <> 0 /\
  (buckets m < 2 ^ 64 -> buckets m' < 2 ^ 64).
Proof.
  unfold hashmap_grow_if_needed.
  destruct (N.eqb_spec (buckets m) 0) as [Hz|Hz].
  - intros H. destruct (hashmap_grow_fields _ _ _ _ H) as (?&?&?&Hb).
    rewrite hashmap_grow_eq in H. rewrite Hz in H. ok_inv.
    cbn. repeat split; auto; try lia. 
  - destruct (load_factor_high m).
    + intros H. destruct (hashmap_grow_fields _ _ _ _ H) as (?&?&?&Hb).
      repeat split; auto; try lia.
      intros. destruct Hb as [->| ->]; [assumption|apply wrap64_lt].
    + intros H. ok_inv. repeat split; auto; lia.
Qed.

(** A table that has buckets and [len = 0] does not grow. *)
Lemma hashmap_grow_if_needed_idle r m :
  len m = 0 -> buckets m <> 0 -> buckets m < 2 ^ 64 ->
  hashmap_grow_if_needed r (Some m) = Ok (Some m).
Proof.
  intros Hl Hb Hlt. unfold hashmap_grow_if_needed.
  destruct (N.eqb_spec (buckets m) 0); [contradiction|].
  rewrite load_factor_low; auto.
Qed.

(** ** Chains *)

Lemma chain_insert_total c k v :
  exists old c', chain_insert c (Some k) v = Ok (old, c').
Proof.
  induction c as [|e c (old & c' & IH)]; cbn; [eauto|].
  destruct (String.eqb (key e) k); [eauto|]. rewrite IH. cbn. eauto.
Qed.

Lemma chain_insert_null_key c v : chain_insert c None v = Fault NullDeref.
Proof. destruct c; reflexivity. Qed.

Lemma chain_insert_keys c k v old c' :
  chain_insert c (Some k) v = Ok (old, c') ->
  (k ∈ (key <$> c) /\ key <$> c' = key <$> c) \/
  ((k ∉ (key <$> c)) /\ old = NULL /\
   c' = c ++ [ {| key := k; value := v |} ]).
Proof.
  revert old c'. induction c as [|e c IH]; cbn; intros old c' H.
  - ok_inv. right. split; [apply not_elem_of_nil|auto].
  - destruct (String.eqb_spec (key e) k) as [<-|Hne].
    + ok_inv. left. split; [left|reflexivity].
    + ok_inv. destruct (IH _ _ Ha) as [[Hin Hk]|(Hnin & -> & ->)].
      * left. split; [right; assumption|cbn; congruence].
      * right. split; [|auto]. rewrite not_elem_of_cons. auto.
Qed.

Lemma chain_get_absent c k : k ∉ (key <$> c) -> chain_get c (Some k) = Ok NULL.
Proof.
  induction c as [|e c IH]; cbn; [reflexivity|].
  rewrite not_elem_of_cons. intros [Hne Hnin].
  destruct (String.eqb_spec (key e) k); [congruence|auto].
Qed.

(** What [hashmap_get] finds in a chain after [hashmap_insert] went through
    it. *)
Lemma chain_insert_get c k v old c' :
  chain_insert c (Some k) v = Ok (old, c') -> chain_get c' (Some k) = Ok v.
Proof.
  revert old c'. induction c as [|e c IH]; cbn; intros old c' H.
  - ok_inv. cbn. rewrite String.eqb_refl. reflexivity.
  - destruct (String.eqb_spec (key e) k) as [<-|Hne].
    + ok_inv. cbn. rewrite String.eqb_refl. reflexivity.
    + ok_inv. cbn. destruct (String.eqb_spec (key e) k); [contradiction|].
      eauto.
Qed.

(** A second insert of the key finds the node of the first one. *)
Lemma chain_insert_again c k v1 v2 old c1 :
  chain_insert c (Some k) v1 = Ok (old, c1) ->
  exists c2, chain_insert c1 (Some k) v2 = Ok (v1, c2) /\
             key <$> c2 = key <$> c1 /\ length c2 = length c1.
Proof.
  revert old c1. induction c as [|e c IH]; cbn; intros old c1 H.
  - ok_inv. cbn. rewrite String.eqb_refl. eauto.
  - destruct (String.eqb_spec (key e) k) as [<-|Hne].
    + ok_inv. cbn. rewrite String.eqb_refl. eauto.
    + ok_inv. cbn. destruct (String.eqb_spec (key e) k); [contradiction|].
      destruct (IH _ _ Ha) as (c2 & -> & Hk & Hl). cbn.
      eexists. split; [reflexivity|]. cbn. split; congruence.
Qed.

Lemma chain_remove_absent c k :
  k ∉ (key <$> c) -> chain_remove c (Some k) = Ok (NULL, c).
Proof.
  induction c as [|e c IH]; cbn; [reflexivity|].
  rewrite not_elem_of_cons. intros [Hne Hnin].
  destruct (String.eqb_spec (key e) k); [congruence|].
  rewrite IH by assumption. reflexivity.
Qed.

Lemma chain_remove_null_key c v c' :
  chain_remove c None = Ok (v, c') -> c = [] /\ v = NULL /\ c' = [].
Proof. destruct c; cbn; intros H; ok_inv; auto. Qed.

Lemma chain_remove_sublist c k v c' :
  chain_remove c k = Ok (v, c') -> sublist c' c.
Proof.
  revert v c'. induction c as [|e c IH]; cbn; intros v c' H.
  - ok_inv. constructor.
  - ok_inv. destruct a.
    + ok_inv. apply sublist_cons. reflexivity.
    + ok_inv. apply sublist_skip. eauto.
Qed.

(** Removing a key that was just inserted hands back the inserted value;
    where the chain holds each key once, the key is gone. *)
Lemma chain_insert_remove c k v old c1 :
  chain_insert c (Some k) v = Ok (old, c1) ->
  exists c2, chain_remove c1 (Some k) = Ok (v, c2) /\
             (NoDup (key <$> c1) -> k ∉ (key <$> c2)).
Proof.
  revert old c1. induction c as [|e c IH]; cbn; intros old c1 H.
  - ok_inv. cbn. rewrite String.eqb_refl. eexists. split; [reflexivity|].
    intros _. apply not_elem_of_nil.
  - destruct (String.eqb_spec (key e) k) as [<-|Hne].
    + ok_inv. cbn. rewrite String.eqb_refl. eexists. split; [reflexivity|].
      intros Hnd. cbn in Hnd. apply NoDup_cons in Hnd. apply Hnd.
    + ok_inv. cbn. destruct (String.eqb_spec (key e) k); [contradiction|].
      destruct (IH _ _ Ha) as (c2 & -> & Hk). cbn.
      eexists. split; [reflexivity|]. cbn. intros Hnd.
      cbn in Hnd. apply NoDup_cons in Hnd. rewrite not_elem_of_cons.
      split; [congruence|apply Hk, Hnd].
Qed.

(** ** The operations, call by call *)

Section Table.

Variable siphash : string -> list byte -> nat -> list byte.

Lemma load_chain_Ok es b c :
  load_chain es b = Ok c <-> es !! N.to_nat b = Some (Head c).
Proof.
  unfold load_chain. destruct (es !! N.to_nat b) as [[|c0]|]; split;
    intros H; simplify_eq; reflexivity.
Qed.

Lemma umod_Ok a b x : umod a b = Ok x <-> b <> 0 /\ x = a mod b.
Proof.
  unfold umod. destruct (N.eqb_spec b 0); split; intros H;
    simplify_eq; intuition congruence.
Qed.

Ltac call_inv :=
  ok_inv;
  repeat match goal with
  | H : umod _ _ = Ok _ |- _ => apply umod_Ok in H as [? ->]
  | H : load_chain _ _ = Ok _ |- _ => apply load_chain_Ok in H
  end.

Lemma hashmap_insert_inv r m k v old map' :
  hashmap_insert siphash r (Some m) k v = Ok (old, map') ->
  exists m1,
    hashmap_grow_if_needed r (Some m) = Ok (Some m1) /\
    ((entries m1 = None /\ old = NULL /\ map' = Some m1) \/
     exists es c c',
       entries m1 = Some es /\ buckets m1 <> 0 /\
       es !! bucket_of siphash m1 k = Some (Head c) /\
       chain_insert c k v = Ok (old, c') /\
       map' = Some (set_entries
                      (Some (<[bucket_of siphash m1 k := Head c']> es)) m1)).
Proof.
  unfold hashmap_insert. intros H. ok_inv.
  destruct a as [m1|]; [|discriminate]. exists m1. split; [assumption|].
  destruct (entries m1) as [es|] eqn:He; [right|left; ok_inv; auto].
  call_inv. do 3 eexists. eauto 6.
Qed.

Lemma hashmap_get_at m k es c :
  entries m = Some es -> buckets m <> 0 ->
  es !! bucket_of siphash m k = Some (Head c) ->
  hashmap_get siphash (Some m) k = chain_get c k.
Proof.
  intros He Hb Hl. unfold hashmap_get. rewrite He.
  apply load_chain_Ok in Hl. unfold bucket_of in Hl.
  unfold umod. destruct (N.eqb_spec (buckets m) 0); [contradiction|].
  rewrite bind_Ok_l, Hl. reflexivity.
Qed.

Lemma hashmap_get_inv m k v :
  hashmap_get siphash (Some m) k = Ok v ->
  (entries m = None /\ v = NULL) \/
  exists es c,
    entries m = Some es /\ buckets m <> 0 /\
    es !! bucket_of siphash m k = Some (Head c) /\ chain_get c k = Ok v.
Proof.
  unfold hashmap_get. destruct (entries m) as [es|]; intros H.
  - right. call_inv. do 2 eexists. eauto 6.
  - left. ok_inv. auto.
Qed.

Lemma hashmap_remove_at m k es c :
  entries m = Some es -> buckets m <> 0 ->
  es !! bucket_of siphash m k = Some (Head c) ->
  hashmap_remove siphash (Some m) k =
  '(v, c') ← chain_remove c k;
  Ok (v, Some (set_entries
                 (Some (<[bucket_of siphash m k := Head c']> es)) m)).
Proof.
  intros He Hb Hl. unfold hashmap_remove. rewrite He.
  apply load_chain_Ok in Hl. unfold bucket_of in Hl.
  unfold umod. destruct (N.eqb_spec (buckets m) 0); [contradiction|].
  rewrite bind_Ok_l, Hl. reflexivity.
Qed.

Lemma hashmap_remove_inv m k v map' :
  hashmap_remove siphash (Some m) k = Ok (v, map') ->
  (entries m = None /\ v = NULL /\ map' = Some m) \/
  exists es c c',
    entries m = Some es /\ buckets m <> 0 /\
    es !! bucket_of siphash m k = Some (Head c) /\
    chain_remove c k = Ok (v, c') /\
    map' = Some (set_entries
                   (Some (<[bucket_of siphash m k := Head c']> es)) m).
Proof.
  unfold hashmap_remove. destruct (entries m) as [es|]; intros H.
  - right. call_inv. do 3 eexists. eauto 6.
  - left. ok_inv. auto.
Qed.

Lemma hashmap_get_after_insert r m k v old m' :
  hashmap_insert siphash r (Some m) (Some k) v = Ok (old, Some m') ->
  entries m' <> None ->
  hashmap_get siphash (Some m') (Some k) = Ok v.
Proof.
  intros H Hstored.
  destruct (hashmap_insert_inv _ _ _ _ _ _ H)
    as (m1 & _ & [(He & _ & ?)|(es & c & c' & He & Hb & Hl & Hc & ?)]);
    simplify_eq; try contradiction.
  rewrite (hashmap_get_at _ _ (<[bucket_of siphash m1 (Some k) := Head c']> es)
             c'); [|reflexivity|assumption|].
  - eapply chain_insert_get, Hc.
  - apply list_lookup_insert_eq. eapply lookup_lt_Some, Hl.
Qed.

Lemma hashmap_insert_at r m k v es c :
  hashmap_grow_if_needed r (Some m) = Ok (Some m) ->
  entries m = Some es -> buckets m <> 0 ->
  es !! bucket_of siphash m k = Some (Head c) ->
  hashmap_insert siphash r (Some m) k v =
  '(old, c') ← chain_insert c k v;
  Ok (old, Some (set_entries
                   (Some (<[bucket_of siphash m k := Head c']> es)) m)).
Proof.
  intros Hg He Hb Hl. unfold hashmap_insert. rewrite Hg, bind_Ok_l, He.
  apply load_chain_Ok in Hl. unfold bucket_of in Hl.
  unfold umod. destruct (N.eqb_spec (buckets m) 0); [contradiction|].
  rewrite bind_Ok_l, Hl. reflexivity.
Qed.

End Table.

(** ** What every reachable table satisfies *)

Lemma foldl_fault {A} (f : outcome A -> nat -> outcome A) e l :
  (forall i, f (Fault e) i = Fault e) -> foldl f (Fault e) l = Fault e.
Proof. intros Hf. induction l as [|i l IH]; cbn; [reflexivity|]. by rewrite Hf. Qed.

Lemma store_nulls_null lo hi b :
  store_nulls None lo hi = Ok b -> b = None /\ hi <= lo.
Proof.
  unfold store_nulls.
  destruct (N.to_nat hi - N.to_nat lo)%nat as [|n] eqn:Hn; cbn.
  - intros H. ok_inv. split; [reflexivity|lia].
  - rewrite foldl_fault by reflexivity. discriminate.
Qed.

Lemma store_nulls_cleared n :
  store_nulls (Some (replicate (N.to_nat n) (Head []))) 0 n =
  Ok (Some (replicate (N.to_nat n) (Head []))).
Proof.
  unfold store_nulls. change (N.to_nat 0) with 0%nat. rewrite Nat.sub_0_r.
  assert (Hall : Forall (fun i => i < N.to_nat n)%nat (seq 0 (N.to_nat n))).
  { apply Forall_forall. intros i Hi. apply elem_of_seq in Hi. lia. }
  induction Hall as [|i l Hi _ IH]; cbn [foldl]; [reflexivity|].
  rewrite bind_Ok_l. unfold store_slot at 2. rewrite length_replicate.
  destruct (decide (i < N.to_nat n)%nat); [|contradiction].
  rewrite list_insert_id by (by apply lookup_replicate_2). exact IH.
Qed.

Lemma hashmap_with_buckets_inv rand c n m :
  hashmap_with_buckets true rand c n = Ok (Some m) ->
  len m = 0 /\ buckets m = n /\
  ((entries m = None /\ n = 0) \/
   entries m = Some (replicate (N.to_nat n) (Head []))).
Proof.
  unfold hashmap_with_buckets, hashmap_new, calloc_slots.
  cbn [set_buckets set_entries len buckets secret entries].
  destruct c; [|destruct (2 ^ 64 <=? n * sizeof_slot)].
  - intros H. ok_inv. apply store_nulls_null in Ha as [-> Hn].
    cbn. split; [|split]; auto. left. split; [reflexivity|lia].
  - intros H. ok_inv. apply store_nulls_null in Ha as [-> Hn].
    cbn. split; [|split]; auto. left. split; [reflexivity|lia].
  - rewrite store_nulls_cleared. intros H. ok_inv. cbn. auto.
Qed.

Lemma slot_of_word_nodup w : slot_nodup (slot_of_word w).
Proof. destruct w; cbn; [constructor|exact I]. Qed.

Lemma realloc_nodup r old size :
  Forall slot_nodup (default [] old) ->
  Forall slot_nodup (default [] (realloc r old size)).
Proof.
  intros Hold. destruct r as [|fresh]; cbn; [constructor|].
  apply Forall_app. split; [by apply Forall_take|].
  apply Forall_forall. intros s Hs. apply list_elem_of_fmap in Hs as (i & -> & _).
  apply slot_of_word_nodup.
Qed.

Lemma hashmap_grow_if_needed_inv r m m1 :
  table_inv m -> hashmap_grow_if_needed r (Some m) = Ok (Some m1) ->
  table_inv m1 /\ buckets m1 <> 0.
Proof.
  intros [Hl Hb Hn Hu] H.
  destruct (hashmap_grow_if_needed_fields _ _ _ H) as (Hl1 & _ & _ & Hnz & Hlt).
  split; [|assumption]. split; [congruence|auto| |contradiction].
  revert H. unfold hashmap_grow_if_needed. rewrite !hashmap_grow_eq.
  repeat match goal with
         | |- context [if ?b then _ else _] => destruct b
         end; intros H; ok_inv; try assumption;
    cbn [entries]; by apply realloc_nodup.
Qed.

Section Invariants.

Variable siphash : string -> list byte -> nat -> list byte.

Lemma set_entries_inv m es :
  table_inv m -> buckets m <> 0 -> Forall slot_nodup es ->
  table_inv (set_entries (Some es) m).
Proof.
  intros [Hl Hb _ _] Hnz Hes. split; cbn; auto. contradiction.
Qed.

Lemma hashmap_insert_preserves r m k v old m' :
  table_inv m ->
  hashmap_insert siphash r (Some m) k v = Ok (old, Some m') ->
  table_inv m' /\ buckets m' <> 0.
Proof.
  intros Hinv H.
  destruct (hashmap_insert_inv _ _ _ _ _ _ _ H)
    as (m1 & Hg & [(He & _ & ?)|(es & c & c' & He & Hb & Hl & Hc & ?)]);
    simplify_eq;
    destruct (hashmap_grow_if_needed_inv _ _ _ Hinv Hg) as [Hinv1 Hnz];
    [auto|].
  split; [|assumption]. apply set_entries_inv; [assumption..|].
  pose proof (inv_nodup _ Hinv1) as Hnd. rewrite He in Hnd. cbn in Hnd.
  apply Forall_insert; [assumption|].
  pose proof (Forall_lookup_1 _ _ _ _ Hnd Hl) as Hc0. cbn in *.
  destruct k as [k|]; [|by rewrite chain_insert_null_key in Hc].
  destruct (chain_insert_keys _ _ _ _ _ Hc) as [[_ ->]|(Hnin & _ & ->)];
    [assumption|].
  rewrite fmap_app. apply NoDup_app. split; [assumption|]. split.
  - intros x Hx Hin. apply list_elem_of_singleton in Hin. cbn in Hin. congruence.
  - apply NoDup_singleton.
Qed.

Lemma hashmap_remove_preserves m k v m' :
  table_inv m ->
  hashmap_remove siphash (Some m) k = Ok (v, Some m') ->
  table_inv m' /\ buckets m' = buckets m.
Proof.
  intros Hinv H.
  destruct (hashmap_remove_inv _ _ _ _ _ H)
    as [(He & _ & ?)|(es & c & c' & He & Hb & Hl & Hc & ?)];
    simplify_eq; [auto|].
  split; [|reflexivity]. apply set_entries_inv; [assumption..|].
  pose proof (inv_nodup _ Hinv) as Hnd. rewrite He in Hnd. cbn in Hnd.
  apply Forall_insert; [assumption|].
  pose proof (Forall_lookup_1 _ _ _ _ Hnd Hl) as Hc0. cbn in *.
  eapply sublist_NoDup; [exact Hc0|].
  apply fmap_sublist. eapply chain_remove_sublist, Hc.
Qed.

Lemma exec_Insert r m k v old m' :
  exec siphash r (Insert k v) m = Ok (old, m') <->
  hashmap_insert siphash r (Some m) k v = Ok (old, Some m').
Proof.
  unfold exec. split.
  - intros H. ok_inv. destruct o; cbn in *; by simplify_eq.
  - intros ->. reflexivity.
Qed.

Lemma exec_Remove r m k v m' :
  exec siphash r (Remove k) m = Ok (v, m') <->
  hashmap_remove siphash (Some m) k = Ok (v, Some m').
Proof.
  unfold exec. split.
  - intros H. ok_inv. destruct o; cbn in *; by simplify_eq.
  - intros ->. reflexivity.
Qed.

Lemma exec_Get r m k v m' :
  exec siphash r (Get k) m = Ok (v, m') <->
  hashmap_get siphash (Some m) k = Ok v /\ m' = m.
Proof.
  unfold exec. split.
  - intros H. ok_inv. auto.
  - intros [-> ->]. reflexivity.
Qed.

Lemma exec_preserves r op m v m' :
  table_inv m -> exec siphash r op m = Ok (v, m') -> table_inv m'.
Proof.
  intros Hinv. destruct op as [k x|k|k].
  - rewrite exec_Insert. intros H.
    by destruct (hashmap_insert_preserves _ _ _ _ _ _ Hinv H).
  - rewrite exec_Get. by intros [_ ->].
  - rewrite exec_Remove. intros H.
    by destruct (hashmap_remove_preserves _ _ _ _ Hinv H).
Qed.

Lemma reachable_inv m : reachable siphash m -> table_inv m.
Proof.
  induction 1 as [rand m H|rand c n m Hn H|r op m v m' _ IH H].
  - unfold hashmap_new in H. simplify_eq. split; cbn; auto.
    reflexivity.
  - destruct (hashmap_with_buckets_inv _ _ _ _ H) as (Hl & Hb & He).
    split; [assumption|by rewrite Hb| |].
    + destruct He as [[-> _]| ->]; cbn; [constructor|].
      apply Forall_replicate. constructor.
    + intros Hz. destruct He as [[-> _]| ->]; [by left|].
      right. rewrite <- Hb, Hz. reflexivity.
  - eapply exec_preserves; eassumption.
Qed.

Lemma exec_buckets r op m v m' :
  exec siphash r op m = Ok (v, m') -> buckets m <= buckets m'.
Proof.
  destruct op as [k x|k|k].
  - rewrite exec_Insert. intros H.
    destruct (hashmap_insert_inv _ _ _ _ _ _ _ H)
      as (m1 & Hg & [(_ & _ & ?)|(es & c & c' & _ & _ & _ & _ & ?)]);
      simplify_eq;
      destruct (hashmap_grow_if_needed_fields _ _ _ Hg) as (_ & _ & Hle & _);
      exact Hle.
  - rewrite exec_Get. intros [_ ->]. reflexivity.
  - rewrite exec_Remove. intros H.
    destruct (hashmap_remove_inv _ _ _ _ _ H)
      as [(_ & _ & ?)|(es & c & c' & _ & _ & _ & _ & ?)];
      simplify_eq; reflexivity.
Qed.

Lemma exec_len r op m v m' :
  exec siphash r op m = Ok (v, m') -> len m' = len m.
Proof.
  destruct op as [k x|k|k].
  - rewrite exec_Insert. intros H.
    destruct (hashmap_insert_inv _ _ _ _ _ _ _ H)
      as (m1 & Hg & [(_ & _ & ?)|(es & c & c' & _ & _ & _ & _ & ?)]);
      simplify_eq;
      destruct (hashmap_grow_if_needed_fields _ _ _ Hg) as (Hl & _);
      exact Hl.
  - rewrite exec_Get. by intros [_ ->].
  - rewrite exec_Remove. intros H.
    destruct (hashmap_remove_inv _ _ _ _ _ H)
      as [(_ & _ & ?)|(es & c & c' & _ & _ & _ & _ & ?)];
      simplify_eq; reflexivity.
Qed.

End Invariants.

(** ** Counting nodes and listing keys *)

Lemma set_entries_same m : set_entries (entries m) m = m.
Proof. destruct m; reflexivity. Qed.

Lemma fmap_insert_same {A B} (f : A -> B) (l : list A) i x y :
  l !! i = Some x -> f y = f x -> f <$> <[i := y]> l = f <$> l.
Proof.
  intros Hl Hf. rewrite list_fmap_insert. apply list_insert_id.
  rewrite list_lookup_fmap, Hl. cbn. congruence.
Qed.

Lemma chain_has_false k c : chain_has k c = false -> k ∉ (key <$> c).
Proof.
  induction c as [|e c IH]; cbn; [intros _; apply not_elem_of_nil|].
  intros H. apply orb_false_iff in H as [He Hc].
  rewrite not_elem_of_cons. split; [|auto].
  intros ->. by rewrite String.eqb_refl in He.
Qed.

Lemma existsb_false_lookup {A} (f : A -> bool) (l : list A) i x :
  existsb f l = false -> l !! i = Some x -> f x = false.
Proof.
  revert i. induction l as [|y l IH]; intros [|i]; cbn; try discriminate.
  - intros H ?. simplify_eq. by apply orb_false_iff in H as [? _].
  - intros H. apply orb_false_iff in H as [_ H]. by apply IH.
Qed.

(** ** The contracts of the three operations *)

Section Contracts.

Variable siphash : string -> list byte -> nat -> list byte.

(** On any table, removing a key that no node holds cannot return anything
    but NULL, and cannot change the table. *)
Lemma hashmap_remove_absent_only_null t k res :
  has_key t k = false ->
  hashmap_remove siphash (Some t) (Some k) = Ok res ->
  res = (NULL, Some t).
Proof.
  intros Habs H. destruct res as [v map']. unfold has_key in Habs.
  destruct (hashmap_remove_inv _ _ _ _ _ H)
    as [(_ & -> & ->)|(es & c & c' & He & _ & Hl & Hc & ->)];
    [reflexivity|].
  rewrite He in Habs. cbn in Habs.
  rewrite chain_remove_absent in Hc.
  - simplify_eq. rewrite list_insert_id by assumption.
    by rewrite <- He, set_entries_same.
  - apply chain_has_false.
    apply (existsb_false_lookup (slot_has k) es _ (Head c) Habs Hl).
Qed.

(** C4. After a call [hashmap_insert(t, k, v)] that stored the pair (it
    returned, and the table has bucket storage), [hashmap_get(t, k)] returns
    exactly [v]. *)
Theorem insert_then_get r m k v old m' :
  hashmap_insert siphash r (Some m) (Some k) v = Ok (old, Some m') ->
  entries m' <> None ->
  hashmap_get siphash (Some m') (Some k) = Ok v.
Proof. apply hashmap_get_after_insert. Qed.

(** C5 (as amended). On a table a program can hold, after
    [hashmap_insert(t, k, v1)] stored the pair (it returned, and the table
    has bucket storage), [hashmap_insert(t, k, v2)] returns [v1] and
    [hashmap_get(t, k)] then returns [v2]; the second insert adds no node and
    leaves every stored key as it was. *)
Theorem reinsert_replaces r1 r2 m k v1 v2 old m1 :
  reachable siphash m ->
  hashmap_insert siphash r1 (Some m) (Some k) v1 = Ok (old, Some m1) ->
  entries m1 <> None ->
  exists m2,
    hashmap_insert siphash r2 (Some m1) (Some k) v2 = Ok (v1, Some m2) /\
    hashmap_get siphash (Some m2) (Some k) = Ok v2 /\
    table_keys m2 = table_keys m1 /\
    node_count m2 = node_count m1.
Proof.
  intros Hreach H Hstored. apply reachable_inv in Hreach.
  destruct (hashmap_insert_preserves _ _ _ _ _ _ _ Hreach H) as [Hinv Hnz].
  destruct (hashmap_insert_inv _ _ _ _ _ _ _ H)
    as (mg & _ & [(He & _ & ?)|(es & c & c1 & He & Hb & Hl & Hc & ?)]);
    simplify_eq; try contradiction.
  set (b := bucket_of siphash mg (Some k)) in *.
  set (m1 := set_entries (Some (<[b := Head c1]> es)) mg) in *.
  assert (Hl1 : <[b := Head c1]> es !! b = Some (Head c1)).
  { apply list_lookup_insert_eq. eapply lookup_lt_Some, Hl. }
  destruct (chain_insert_again _ _ _ v2 _ _ Hc) as (c2 & Hc2 & Hk & Hlen).
  assert (Hins : hashmap_insert siphash r2 (Some m1) (Some k) v2 =
                 Ok (v1, Some (set_entries
                                 (Some (<[b := Head c2]> (<[b := Head c1]> es)))
                                 m1))).
  { rewrite (hashmap_insert_at _ _ _ _ _ (<[b := Head c1]> es) c1);
      [|apply hashmap_grow_if_needed_idle;
        [apply Hinv|assumption|apply Hinv]
       |reflexivity|assumption|exact Hl1].
    change (bucket_of siphash m1 (Some k)) with b. rewrite Hc2. reflexivity. }
  eexists. split; [exact Hins|]. split; [|split].
  - eapply hashmap_get_after_insert; [exact Hins|discriminate].
  - unfold table_keys. cbn. f_equal.
    apply (fmap_insert_same slot_keys _ _ (Head c1)); [exact Hl1|].
    cbn. by rewrite Hk.
  - unfold node_count. cbn. f_equal.
    apply (fmap_insert_same slot_nodes _ _ (Head c1)); [exact Hl1|].
    cbn. exact Hlen.
Qed.

(** C6 (as amended). On a table a program can hold, after
    [hashmap_insert(t, k, v)] stored the pair (it returned, and the table has
    bucket storage), [hashmap_remove(t, k)] returns [v] and [hashmap_get(t, k)]
    then returns NULL.  On any table [t'] whose bucket for [k'] holds a chain
    (or that has no bucket storage), [hashmap_remove(t', k')] of a key that
    no node holds returns NULL and leaves the table, its size included, as
    it was. *)
Theorem remove_round_trip r m k v old m1 t' k' :
  reachable siphash m ->
  hashmap_insert siphash r (Some m) (Some k) v = Ok (old, Some m1) ->
  entries m1 <> None ->
  has_key t' k' = false ->
  bucket_ready siphash t' (Some k') = true ->
  (exists m2,
     hashmap_remove siphash (Some m1) (Some k) = Ok (v, Some m2) /\
     hashmap_get siphash (Some m2) (Some k) = Ok NULL) /\
  hashmap_remove siphash (Some t') (Some k') = Ok (NULL, Some t').
Proof.
  intros Hreach H Hstored Habs Hready. split.
  - apply reachable_inv in Hreach.
    destruct (hashmap_insert_preserves _ _ _ _ _ _ _ Hreach H) as [Hinv Hnz].
    destruct (hashmap_insert_inv _ _ _ _ _ _ _ H)
      as (mg & _ & [(He & _ & ?)|(es & c & c1 & He & Hb & Hl & Hc & ?)]);
      simplify_eq; try contradiction.
    set (b := bucket_of siphash mg (Some k)) in *.
    set (m1 := set_entries (Some (<[b := Head c1]> es)) mg) in *.
    assert (Hlt : (b < length es)%nat) by (eapply lookup_lt_Some, Hl).
    assert (Hl1 : <[b := Head c1]> es !! b = Some (Head c1))
      by (by apply list_lookup_insert_eq).
    destruct (chain_insert_remove _ _ _ _ _ Hc) as (c2 & Hc2 & Hgone).
    pose proof (Forall_lookup_1 _ _ _ _ (inv_nodup _ Hinv) Hl1) as Hnd.
    eexists. split.
    + rewrite (hashmap_remove_at _ _ _ (<[b := Head c1]> es) c1);
        [|reflexivity|assumption|exact Hl1].
      change (bucket_of siphash m1 (Some k)) with b. rewrite Hc2. reflexivity.
    + rewrite (hashmap_get_at _ _ _
                 (<[b := Head c2]> (<[b := Head c1]> es)) c2);
        [|reflexivity|assumption|].
      * apply chain_get_absent, Hgone, Hnd.
      * apply list_lookup_insert_eq. by rewrite length_insert.
  - unfold bucket_ready in Hready. unfold has_key in Habs.
    destruct (entries t') as [es|] eqn:He.
    + apply andb_true_iff in Hready as [Hnz Hslot].
      apply negb_true_iff, N.eqb_neq in Hnz.
      destruct (es !! bucket_of siphash t' (Some k')) as [[|c]|] eqn:Hl;
        try discriminate.
      rewrite (hashmap_remove_at _ _ _ es c) by assumption.
      rewrite chain_remove_absent.
      * cbn. rewrite list_insert_id by assumption.
        rewrite <- He, set_entries_same. reflexivity.
      * apply chain_has_false.
        apply (existsb_false_lookup (slot_has k') es _ (Head c) Habs Hl).
    + unfold hashmap_remove. rewrite He. reflexivity.
Qed.

(** The store passing form of each operation computes what its functional
    form computes. *)
Lemma hashmap_get_on_eq k t :
  hashmap_get_on siphash k t =
  (v ← hashmap_get siphash (Some t) k; Ok (v, t)).
Proof.
  unfold hashmap_get_on, hashmap_get.
  cbv [mbind table_op_bind load lift mret table_op_ret].
  destruct (entries t) as [es|]; [|reflexivity].
  destruct (umod _ _) as [b|e]; [|reflexivity]. cbn.
  destruct (load_chain es b) as [c|e]; [|reflexivity]. cbn.
  by destruct (chain_get c k).
Qed.

Lemma hashmap_remove_on_eq k t :
  hashmap_remove_on siphash k t = exec siphash ReallocNull (Remove k) t.
Proof.
  unfold hashmap_remove_on, exec, hashmap_remove.
  cbv [mbind table_op_bind load lift store mret table_op_ret].
  destruct (entries t) as [es|]; [|reflexivity].
  destruct (umod _ _) as [b|e]; [|reflexivity]. cbn.
  destruct (load_chain es b) as [c|e]; [|reflexivity]. cbn.
  by destruct (chain_remove c k) as [[v c']|e].
Qed.

Lemma hashmap_grow_on_eq r n t :
  hashmap_grow_on r n t =
  (map ← hashmap_grow r (Some t) n; t' ← pointee map; Ok (tt, t')).
Proof.
  unfold hashmap_grow_on, hashmap_grow.
  cbv [mbind table_op_bind load lift store mret table_op_ret].
  destruct (n <=? buckets t); [reflexivity|].
  cbn [entries buckets set_entries set_buckets].
  by destruct (store_nulls _ _ _).
Qed.

Lemma hashmap_grow_if_needed_on_eq r t :
  hashmap_grow_if_needed_on r t =
  (map ← hashmap_grow_if_needed r (Some t); t' ← pointee map; Ok (tt, t')).
Proof.
  unfold hashmap_grow_if_needed_on, hashmap_grow_if_needed.
  cbv [mbind table_op_bind load mret table_op_ret].
  destruct (buckets t =? 0); [apply hashmap_grow_on_eq|].
  destruct (load_factor_high t); [apply hashmap_grow_on_eq|reflexivity].
Qed.

Lemma hashmap_insert_on_eq r k v t :
  hashmap_insert_on siphash r k v t = exec siphash r (Insert k v) t.
Proof.
  unfold hashmap_insert_on, exec, hashmap_insert.
  cbv [mbind table_op_bind].
  rewrite hashmap_grow_if_needed_on_eq.
  destruct (hashmap_grow_if_needed r (Some t)) as [[g|]|e]; [|reflexivity..].
  cbv [mbind outcome_bind pointee load lift store mret table_op_ret].
  destruct (entries g) as [es|]; [|reflexivity].
  destruct (umod _ _) as [b|e]; [|reflexivity].
  destruct (load_chain es b) as [c|e]; [|reflexivity].
  by destruct (chain_insert c k v) as [[old c']|e].
Qed.

(** C8. [hashmap_get], as a computation on the table behind [map], hands
    back at its return the table it was given, [len], [buckets], the secret
    and every chain: no statement of it writes a field, and none reaches
    [hashmap_grow_if_needed] or the allocator.  Its result is the result of
    the call in a run, on which the answer of [realloc] has no bearing. *)
Theorem get_never_writes k t v t' :
  hashmap_get_on siphash k t = Ok (v, t') ->
  t' = t /\
  hashmap_get siphash (Some t) k = Ok v /\
  forall r, exec siphash r (Get k) t = Ok (v, t).
Proof.
  rewrite hashmap_get_on_eq. intros H. ok_inv.
  split; [reflexivity|]. split; [assumption|].
  intros r. apply exec_Get. auto.
Qed.

Lemma unsized_table_empty m :
  table_inv m -> buckets m = 0 -> len m = 0 /\ node_count m = 0%nat.
Proof.
  intros [Hl _ _ Hu] Hz. split; [assumption|].
  unfold node_count. by destruct (Hu Hz) as [-> | ->].
Qed.

(** C9. On a table a program can hold, no call makes [buckets] smaller, and
    [buckets] is 0, before the call or after it, only on a table without
    any node, whose [len] is 0. *)
Theorem buckets_never_shrink r op m v m' :
  reachable siphash m ->
  exec siphash r op m = Ok (v, m') ->
  buckets m <= buckets m' /\
  (buckets m = 0 -> len m = 0 /\ node_count m = 0%nat) /\
  (buckets m' = 0 -> len m' = 0 /\ node_count m' = 0%nat).
Proof.
  intros Hreach H. apply reachable_inv in Hreach.
  split; [eapply exec_buckets, H|]. split.
  - by apply unsized_table_empty.
  - eapply unsized_table_empty, exec_preserves; eassumption.
Qed.

End Contracts.

(** ** The [len] field and the bucket count over a lifetime *)

Section Lifetime.

Variable siphash : string -> list byte -> nat -> list byte.

Lemma hashmap_insert_buckets r m k v old m' :
  len m = 0 -> buckets m = 0 \/ buckets m = 8 ->
  hashmap_insert siphash r (Some m) k v = Ok (old, Some m') ->
  buckets m' = 8.
Proof.
  intros Hl Hb H.
  destruct (hashmap_insert_inv _ _ _ _ _ _ _ H)
    as (m1 & Hg & Hm'). 
  assert (buckets m1 = 8) as Hb1.
  { destruct Hb as [Hb|Hb].
    - unfold hashmap_grow_if_needed in Hg. rewrite Hb in Hg.
      change (0 =? 0) with true in Hg. cbv iota in Hg.
      rewrite hashmap_grow_eq, Hb in Hg. cbn in Hg. by simplify_eq.
    - rewrite hashmap_grow_if_needed_idle in Hg; [by simplify_eq|auto|..];
        rewrite Hb; [discriminate|reflexivity]. }
  destruct Hm' as [(_ & _ & ?)|(es & c & c' & _ & _ & _ & _ & ?)];
    by simplify_eq.
Qed.

Lemma exec_lifetime r op m v m' :
  len m = 0 -> buckets m = 0 \/ buckets m = 8 ->
  exec siphash r op m = Ok (v, m') ->
  len m' = 0 /\
  buckets m' = (if is_insert (r, op) then 8 else buckets m).
Proof.
  intros Hl Hb H. split; [by rewrite (exec_len _ _ _ _ _ _ H)|].
  destruct op as [k x|k|k]; cbn.
  - apply exec_Insert in H. eapply hashmap_insert_buckets; eassumption.
  - apply exec_Get in H as [_ ->]. reflexivity.
  - apply exec_Remove in H.
    destruct (hashmap_remove_inv _ _ _ _ _ H)
      as [(_ & _ & ?)|(es & c & c' & _ & _ & _ & _ & ?)];
      by simplify_eq.
Qed.

Lemma run_lifetime tr m rs m' :
  len m = 0 -> buckets m = 0 \/ buckets m = 8 ->
  run siphash tr m = Ok (rs, m') ->
  len m' = 0 /\
  buckets m' = (if has_insert tr then 8 else buckets m).
Proof.
  revert m rs. induction tr as [|[r op] tr IH]; intros m rs Hl Hb; cbn [run].
  - intros H. ok_inv. auto.
  - intros H. ok_inv.
    destruct (exec_lifetime _ _ _ _ _ Hl Hb Ha) as [Hl1 Hb1].
    assert (buckets h = 0 \/ buckets h = 8) as Hb1'.
    { rewrite Hb1. destruct (is_insert (r, op)); auto. }
    destruct (IH _ _ Hl1 Hb1' Ha0) as [Hl2 Hb2].
    split; [assumption|]. rewrite Hb2, Hb1. unfold has_insert. cbn [existsb].
    destruct (is_insert (r, op)); cbn; [|reflexivity].
    by destruct (existsb is_insert tr).
Qed.

(** C7. [len] is 0 in the table [hashmap_new] returns, and no call of
    [hashmap_insert], [hashmap_get], [hashmap_remove], [hashmap_grow] or
    [hashmap_grow_if_needed] changes it on any table.  So on every table a program can hold that has
    buckets the doubling test [len * 4 >= buckets * 3] is false, and a table
    made by [hashmap_new] has no bucket before its first insert and exactly
    8 buckets from the first insert on. *)
Theorem len_is_never_updated rand m0 tr rs m :
  hashmap_new true rand = Some m0 ->
  run siphash tr m0 = Ok (rs, m) ->
  len m0 = 0 /\ len m = 0 /\
  (forall r op t v t', exec siphash r op t = Ok (v, t') -> len t' = len t) /\
  (forall r t n t',
     hashmap_grow r (Some t) n = Ok (Some t') -> len t' = len t) /\
  (forall r t t',
     hashmap_grow_if_needed r (Some t) = Ok (Some t') -> len t' = len t) /\
  (forall t,
     reachable siphash t -> buckets t <> 0 -> load_factor_high t = false) /\
  buckets m = (if has_insert tr then 8 else 0).
Proof.
  intros Hnew Hrun. unfold hashmap_new in Hnew. simplify_eq.
  apply run_lifetime in Hrun as [Hl Hb]; [|reflexivity|by left].
  split; [reflexivity|]. split; [assumption|].
  split; [|split; [|split; [|split]]].
  - apply exec_len.
  - intros r t n t' H. by destruct (hashmap_grow_fields _ _ _ _ H).
  - intros r t t' H. by destruct (hashmap_grow_if_needed_fields _ _ _ H).
  - intros t Ht Hnz. apply reachable_inv in Ht as [Hlt Hbt _ _].
    by apply load_factor_low.
  - exact Hb.
Qed.

End Lifetime.

(** ** Two runs of one program *)

Section TwoRuns.

Variable siphash : string -> list byte -> nat -> list byte.

(** The digest is a function of the key and of the secret. *)
Lemma hashmap_hash_key_secret t1 t2 k h :
  secret t1 = secret t2 ->
  hashmap_hash_key siphash (Some t1) k h =
  hashmap_hash_key siphash (Some t2) k h.
Proof. intros Hs. unfold hashmap_hash_key. by rewrite Hs. Qed.

Lemma slot_sim_refl s : slot_sim s s.
Proof. by left. Qed.

Lemma slot_sim_heads c1 c2 : slot_sim (Head c1) (Head c2) -> c1 = c2.
Proof.
  intros [H|[[H1|H1] [H2|H2]]]; by simplify_eq.
Qed.

Lemma blank_slot_of_word w : blank (slot_of_word w).
Proof. destruct w; [by right|by left]. Qed.

Lemma bucket_of_sim m1 m2 k :
  table_sim m1 m2 -> bucket_of siphash m1 k = bucket_of siphash m2 k.
Proof.
  intros (_ & Hb & Hs & _). unfold bucket_of.
  by rewrite (hashmap_hash_key_secret m1 m2 k 0 Hs), Hb.
Qed.

Lemma realloc_sim r1 r2 e1 e2 size :
  same_answer r1 r2 ->
  option_Forall2 (Forall2 slot_sim) e1 e2 ->
  option_Forall2 (Forall2 slot_sim) (realloc r1 e1 size) (realloc r2 e2 size).
Proof.
  intros Hr He. destruct r1 as [|f1], r2 as [|f2]; try contradiction;
    cbn [realloc]; constructor.
  assert (Hl : Forall2 slot_sim (default [] e1) (default [] e2)).
  { destruct He; cbn; [assumption|constructor]. }
  set (n := N.to_nat (size / sizeof_slot)).
  pose proof (Forall2_take _ _ _ n Hl) as Ht.
  apply Forall2_app; [exact Ht|].
  rewrite (Forall2_length _ _ _ Ht). apply Forall2_fmap.
  apply Forall_Forall2_diag, Forall_forall. intros i _.
  right. split; apply blank_slot_of_word.
Qed.

Lemma hashmap_grow_if_needed_sim r1 r2 m1 m2 g1 g2 :
  table_sim m1 m2 -> same_answer r1 r2 ->
  hashmap_grow_if_needed r1 (Some m1) = Ok (Some g1) ->
  hashmap_grow_if_needed r2 (Some m2) = Ok (Some g2) ->
  table_sim g1 g2.
Proof.
  intros (Hl & Hb & Hs & He) Hr. unfold hashmap_grow_if_needed, load_factor_high.
  rewrite !hashmap_grow_eq, Hl, Hb.
  repeat match goal with
         | |- context [if ?b then _ else _] => destruct b
         end; intros H1 H2; ok_inv; repeat split; cbn; try assumption;
    by apply realloc_sim.
Qed.

Lemma insert_sim_slots (es1 es2 : list Slot) b c :
  Forall2 slot_sim es1 es2 ->
  Forall2 slot_sim (<[b := Head c]> es1) (<[b := Head c]> es2).
Proof. intros H. apply Forall2_insert; [assumption|apply slot_sim_refl]. Qed.

Lemma lookup_sim_heads (es1 es2 : list Slot) b c1 c2 :
  Forall2 slot_sim es1 es2 ->
  es1 !! b = Some (Head c1) -> es2 !! b = Some (Head c2) -> c1 = c2.
Proof.
  intros H H1 H2. apply slot_sim_heads.
  eapply Forall2_lookup_lr; eassumption.
Qed.

Ltac same_result :=
  match goal with
  | H1 : ?x = Ok _, H2 : ?x = Ok _ |- _ => rewrite H1 in H2; simplify_eq
  end.

Lemma exec_sim r1 r2 op m1 m2 v1 v2 m1' m2' :
  table_sim m1 m2 -> same_answer r1 r2 ->
  exec siphash r1 op m1 = Ok (v1, m1') ->
  exec siphash r2 op m2 = Ok (v2, m2') ->
  v1 = v2 /\ table_sim m1' m2'.
Proof.
  intros Hsim Hr. destruct op as [k x|k|k].
  - rewrite !exec_Insert. intros H1 H2.
    destruct (hashmap_insert_inv _ _ _ _ _ _ _ H1) as (g1 & Hg1 & Hc1).
    destruct (hashmap_insert_inv _ _ _ _ _ _ _ H2) as (g2 & Hg2 & Hc2).
    pose proof (hashmap_grow_if_needed_sim _ _ _ _ _ _ Hsim Hr Hg1 Hg2)
      as Hg.
    pose proof (bucket_of_sim _ _ k Hg) as Hbk.
    destruct Hg as (Hl & Hb & Hs & He).
    destruct Hc1 as [(He1 & ? & ?)|(es1 & c1 & c1' & He1 & _ & Hl1 & Hi1 & ?)],
             Hc2 as [(He2 & ? & ?)|(es2 & c2 & c2' & He2 & _ & Hl2 & Hi2 & ?)];
      simplify_eq; rewrite He1, He2 in He; inversion He; subst.
    + split; [reflexivity|]. repeat split; try assumption.
      rewrite He1, He2. constructor.
    + rewrite Hbk in *.
      assert (c1 = c2) by (eapply lookup_sim_heads; eassumption).
      subst c2. same_result.
      split; [reflexivity|]. repeat split; try assumption.
      cbn. constructor. by apply insert_sim_slots.
  - rewrite !exec_Get. intros [H1 ->] [H2 ->]. split; [|assumption].
    pose proof (bucket_of_sim _ _ k Hsim) as Hbk.
    destruct Hsim as (Hl & Hb & Hs & He).
    destruct (hashmap_get_inv _ _ _ _ H1)
      as [(He1 & ?)|(es1 & c1 & He1 & _ & Hl1 & Hc1)],
       (hashmap_get_inv _ _ _ _ H2)
      as [(He2 & ?)|(es2 & c2 & He2 & _ & Hl2 & Hc2)];
      simplify_eq; rewrite He1, He2 in He; inversion He; subst;
      [reflexivity|].
    rewrite Hbk in *.
    assert (c1 = c2) by (eapply lookup_sim_heads; eassumption).
    subst c2. by same_result.
  - rewrite !exec_Remove. intros H1 H2.
    pose proof (bucket_of_sim _ _ k Hsim) as Hbk.
    destruct Hsim as (Hl & Hb & Hs & He).
    destruct (hashmap_remove_inv _ _ _ _ _ H1)
      as [(He1 & ? & ?)|(es1 & c1 & c1' & He1 & _ & Hl1 & Hc1 & ?)],
       (hashmap_remove_inv _ _ _ _ _ H2)
      as [(He2 & ? & ?)|(es2 & c2 & c2' & He2 & _ & Hl2 & Hc2 & ?)];
      simplify_eq; rewrite He1, He2 in He; inversion He; subst.
    + split; [reflexivity|]. repeat split; try assumption.
      rewrite He1, He2. constructor.
    + rewrite Hbk in *.
      assert (c1 = c2) by (eapply lookup_sim_heads; eassumption).
      subst c2. same_result.
      split; [reflexivity|]. repeat split; try assumption.
      cbn. constructor. by apply insert_sim_slots.
Qed.

Lemma run_sim tr1 tr2 :
  Forall2 same_call tr1 tr2 ->
  forall m1 m2 rs1 rs2 f1 f2,
    table_sim m1 m2 ->
    run siphash tr1 m1 = Ok (rs1, f1) ->
    run siphash tr2 m2 = Ok (rs2, f2) ->
    rs1 = rs2 /\ table_sim f1 f2.
Proof.
  induction 1 as [|[r1 op1] [r2 op2] tr1 tr2 [Hr Hop] _ IH];
    intros m1 m2 rs1 rs2 f1 f2 Hsim; cbn [run]; intros H1 H2; ok_inv.
  - auto.
  - cbn in Hr, Hop. subst op2.
    match goal with
    | Hx : exec siphash r1 _ _ = Ok _, Hy : exec siphash r2 _ _ = Ok _ |- _ =>
        destruct (exec_sim _ _ _ _ _ _ _ _ _ Hsim Hr Hx Hy) as [-> Hsim']
    end.
    match goal with
    | Hx : run siphash tr1 _ = Ok _, Hy : run siphash tr2 _ = Ok _ |- _ =>
        destruct (IH _ _ _ _ _ _ Hsim' Hx Hy) as [-> Hf]
    end.
    auto.
Qed.

(** C10 (as amended). Two runs of one sequence of calls on tables made by
    [hashmap_new] with the same secret, in which [realloc] fails in both or
    in neither and which both run to their end, return the same results call
    by call, and [hashmap_get] then returns the same result for every key on
    which it returns in both.  The digest of a key depends only on the key
    and on the secret. *)
Theorem runs_agree rand1 rand2 m1 m2 tr1 tr2 rs1 rs2 f1 f2 :
  hashmap_new true rand1 = Some m1 ->
  hashmap_new true rand2 = Some m2 ->
  secret m1 = secret m2 ->
  Forall2 same_call tr1 tr2 ->
  run siphash tr1 m1 = Ok (rs1, f1) ->
  run siphash tr2 m2 = Ok (rs2, f2) ->
  rs1 = rs2 /\
  (forall k v1 v2,
     hashmap_get siphash (Some f1) k = Ok v1 ->
     hashmap_get siphash (Some f2) k = Ok v2 -> v1 = v2) /\
  (forall t1 t2 k h,
     secret t1 = secret t2 ->
     hashmap_hash_key siphash (Some t1) k h =
     hashmap_hash_key siphash (Some t2) k h).
Proof.
  intros H1 H2 Hs Htr Hrun1 Hrun2.
  assert (Hsim : table_sim m1 m2).
  { apply hashmap_new_fields in H1 as (Hl1 & Hb1 & He1).
    apply hashmap_new_fields in H2 as (Hl2 & Hb2 & He2).
    unfold table_sim. rewrite Hl1, Hl2, Hb1, Hb2, He1, He2.
    repeat split; [exact Hs|constructor]. }
  destruct (run_sim _ _ Htr _ _ _ _ _ _ Hsim Hrun1 Hrun2) as [-> Hf].
  split; [reflexivity|]. split; [|apply hashmap_hash_key_secret].
  intros k v1 v2 Hg1 Hg2.
  assert (exec siphash ReallocNull (Get k) f1 = Ok (v1, f1)) as He1
    by (by apply exec_Get).
  assert (exec siphash ReallocNull (Get k) f2 = Ok (v2, f2)) as He2
    by (by apply exec_Get).
  by destruct (exec_sim ReallocNull ReallocNull _ _ _ _ _ _ _ Hf I He1 He2).
Qed.

End TwoRuns.

(** ** Where the code departs from the specification *)

Lemma hashmap_grow_if_needed_unsized r m :
  buckets m = 0 ->
  hashmap_grow_if_needed r (Some m) =
  Ok (Some {| len := len m;
              buckets := 8;
              secret := secret m;
              entries := realloc r (entries m) 64 |}).
Proof.
  intros Hb. unfold hashmap_grow_if_needed. rewrite Hb.
  change (0 =? 0) with true. cbv iota. rewrite hashmap_grow_eq, Hb.
  reflexivity.
Qed.

Lemma node_count_one (b : nat) e :
  (b < 8)%nat ->
  sum_list (slot_nodes <$> <[b := Head [e]]> (replicate 8 (Head []))) = 1%nat.
Proof.
  intros Hb. do 8 (destruct b as [|b]; [reflexivity|]). lia.
Qed.

(** C1. After one insert into the table of [hashmap_new], with bucket storage
    that happens to be zero filled, the table holds one node and
    [hashmap_get] finds the key, but [hashmap_len] answers 0: no code of
    hashmap.c writes [len] after [hashmap_new]. *)
Theorem len_misses_insert siphash rand k v :
  exists m0 m1,
    hashmap_new true rand = Some m0 /\
    exec siphash zero_filled (Insert (Some k) v) m0 = Ok (NULL, m1) /\
    node_count m1 = 1%nat /\
    hashmap_get siphash (Some m1) (Some k) = Ok v /\
    hashmap_len m1 = 0.
Proof.
  eexists. eexists. split; [reflexivity|].
  set (m0 := {| len := 0; buckets := 0; secret := _; entries := None |}).
  set (mg := {| len := 0; buckets := 8; secret := secret m0;
                entries := Some (replicate 8 (Head [])) |}).
  set (b := bucket_of siphash mg (Some k)).
  assert (Hb : (b < 8)%nat).
  { unfold b, bucket_of. cbn [buckets mg].
    pose proof (N.mod_upper_bound
                  (hashmap_hash_key siphash (Some mg) (Some k) 0) 8).
    lia. }
  assert (Hins : hashmap_insert siphash zero_filled (Some m0) (Some k) v =
                 Ok (NULL,
                     Some (set_entries
                             (Some (<[b := Head [ {| key := k; value := v |} ]]>
                                      (replicate 8 (Head [])))) mg))).
  { unfold hashmap_insert.
    rewrite hashmap_grow_if_needed_unsized by reflexivity.
    change (realloc zero_filled (entries m0) 64)
      with (Some (replicate 8 (Head []))).
    rewrite bind_Ok_l. cbn [entries].
    change (umod _ _) with
      (Ok (hashmap_hash_key siphash (Some mg) (Some k) 0 mod 8) : outcome N).
    rewrite bind_Ok_l. unfold load_chain. fold (bucket_of siphash mg (Some k)).
    fold b. rewrite lookup_replicate_2 by exact Hb. reflexivity. }
  split; [by apply exec_Insert|]. split; [|split].
  - unfold node_count. cbn [entries set_entries default].
    by apply node_count_one.
  - eapply hashmap_get_after_insert; [exact Hins|discriminate].
  - reflexivity.
Qed.

(** C2. [hashmap_grow] does not clear the slots it adds: from 0 to 8 buckets,
    and from 8 to 16, the new slots hold what [realloc] left in them. *)
Theorem grow_leaves_new_slots_uncleared s :
  hashmap_grow uncleared
    (Some {| len := 0; buckets := 0; secret := s; entries := None |}) 8 =
  Ok (Some {| len := 0; buckets := 8; secret := s;
              entries := Some (replicate 8 Wild) |}) /\
  hashmap_grow uncleared
    (Some {| len := 0; buckets := 8; secret := s;
             entries := Some (replicate 8 (Head [])) |}) 16 =
  Ok (Some {| len := 0; buckets := 16; secret := s;
              entries := Some (replicate 8 (Head []) ++ replicate 8 Wild) |}).
Proof. split; reflexivity. Qed.

(** C3. [hashmap_insert] on a NULL map reads [map->entries] through the NULL
    pointer, and on a NULL key it reaches [strdup(NULL)] after the table has
    grown; [hashmap_get] and [hashmap_remove] return NULL on a NULL map. *)
Theorem insert_null_handle_faults siphash r k v :
  hashmap_insert siphash r None k v = Fault NullDeref /\
  hashmap_insert siphash zero_filled (Some fresh_table) None v =
    Fault NullDeref /\
  hashmap_get siphash None k = Ok NULL /\
  hashmap_remove siphash None k = Ok (NULL, None).
Proof. repeat split; reflexivity. Qed.

(** ** The theorems on explicit tables *)

(** The runs below use [sample_siphash]: the key "key1" falls in bucket 1 and
    "key2" in bucket 2 of an 8 bucket table. *)

Lemma fresh_table_reachable : reachable sample_siphash fresh_table.
Proof. apply (reach_new sample_siphash (fun _ => 0)). reflexivity. Defined.

Lemma insert_then_get_witness :
  hashmap_get sample_siphash
    (Some (table_after sample_siphash
             [(zero_filled, Insert (Some "key1"%string) 5)] fresh_table))
    (Some "key1"%string) = Ok 5.
Proof.
  apply (insert_then_get sample_siphash zero_filled fresh_table
           "key1" 5 NULL).
  - vm_compute. reflexivity.
  - vm_compute. discriminate.
Defined.

Lemma reinsert_replaces_witness :
  exists m2,
    hashmap_insert sample_siphash uncleared
      (Some (table_after sample_siphash
               [(zero_filled, Insert (Some "key1"%string) 5)] fresh_table))
      (Some "key1"%string) 6 = Ok (5, Some m2) /\
    hashmap_get sample_siphash (Some m2) (Some "key1"%string) = Ok 6 /\
    table_keys m2 =
      table_keys (table_after sample_siphash
                    [(zero_filled, Insert (Some "key1"%string) 5)]
                    fresh_table) /\
    node_count m2 =
      node_count (table_after sample_siphash
                    [(zero_filled, Insert (Some "key1"%string) 5)]
                    fresh_table).
Proof.
  apply (reinsert_replaces sample_siphash zero_filled uncleared fresh_table
           "key1" 5 6 NULL).
  - exact fresh_table_reachable.
  - vm_compute. reflexivity.
  - vm_compute. discriminate.
Defined.

Lemma remove_round_trip_witness :
  (exists m2,
     hashmap_remove sample_siphash
       (Some (table_after sample_siphash
                [(zero_filled, Insert (Some "key1"%string) 5)] fresh_table))
       (Some "key1"%string) = Ok (5, Some m2) /\
     hashmap_get sample_siphash (Some m2) (Some "key1"%string) = Ok NULL) /\
  hashmap_remove sample_siphash
    (Some (table_after sample_siphash
             [(zero_filled, Insert (Some "key1"%string) 5)] fresh_table))
    (Some "key2"%string) =
  Ok (NULL,
      Some (table_after sample_siphash
              [(zero_filled, Insert (Some "key1"%string) 5)] fresh_table)).
Proof.
  apply (remove_round_trip sample_siphash zero_filled fresh_table
           "key1" 5 NULL).
  - exact fresh_table_reachable.
  - vm_compute. reflexivity.
  - vm_compute. discriminate.
  - vm_compute. reflexivity.
  - vm_compute. reflexivity.
Defined.

Lemma len_is_never_updated_witness :
  len fresh_table = 0 /\
  len (table_after sample_siphash
         [(zero_filled, Insert (Some "key1"%string) 5);
          (uncleared, Remove (Some "key1"%string))] fresh_table) = 0 /\
  (forall r op t v t',
     exec sample_siphash r op t = Ok (v, t') -> len t' = len t) /\
  (forall r t n t',
     hashmap_grow r (Some t) n = Ok (Some t') -> len t' = len t) /\
  (forall r t t',
     hashmap_grow_if_needed r (Some t) = Ok (Some t') -> len t' = len t) /\
  (forall t,
     reachable sample_siphash t -> buckets t <> 0 ->
     load_factor_high t = false) /\
  buckets (table_after sample_siphash
             [(zero_filled, Insert (Some "key1"%string) 5);
              (uncleared, Remove (Some "key1"%string))] fresh_table) = 8.
Proof.
  apply (len_is_never_updated sample_siphash (fun _ => 0) fresh_table
           [(zero_filled, Insert (Some "key1"%string) 5);
            (uncleared, Remove (Some "key1"%string))]
           [NULL; 5]).
  - reflexivity.
  - vm_compute. reflexivity.
Defined.

Lemma get_never_writes_witness :
  hashmap_get_on sample_siphash (Some "key1"%string) one_key_table =
    Ok (5, one_key_table) /\
  (one_key_table = one_key_table /\
   hashmap_get sample_siphash (Some one_key_table) (Some "key1"%string) =
     Ok 5 /\
   forall r,
     exec sample_siphash r (Get (Some "key1"%string)) one_key_table =
     Ok (5, one_key_table)).
Proof.
  split; [vm_compute; reflexivity|].
  apply (get_never_writes sample_siphash (Some "key1"%string)).
  vm_compute. reflexivity.
Defined.

Lemma buckets_never_shrink_witness :
  buckets fresh_table <=
  buckets (table_after sample_siphash
             [(zero_filled, Insert (Some "key1"%string) 5)] fresh_table) /\
  (buckets fresh_table = 0 ->
   len fresh_table = 0 /\ node_count fresh_table = 0%nat) /\
  (buckets (table_after sample_siphash
              [(zero_filled, Insert (Some "key1"%string) 5)] fresh_table) = 0 ->
   len (table_after sample_siphash
          [(zero_filled, Insert (Some "key1"%string) 5)] fresh_table) = 0 /\
   node_count (table_after sample_siphash
                 [(zero_filled, Insert (Some "key1"%string) 5)] fresh_table) =
   0%nat).
Proof.
  apply (buckets_never_shrink sample_siphash zero_filled
           (Insert (Some "key1"%string) 5) fresh_table NULL).
  - exact fresh_table_reachable.
  - vm_compute. reflexivity.
Defined.

(** Two runs of insert, get, remove, get whose bucket storage differs: zero
    filled in one, zero in word 1 only in the other. *)
Lemma runs_agree_witness :
  [NULL; 5; 5; NULL] = [NULL; 5; 5; NULL] /\
  (forall k v1 v2,
     hashmap_get sample_siphash
       (Some (table_after sample_siphash
                [(zero_filled, Insert (Some "key1"%string) 5);
                 (zero_filled, Get (Some "key1"%string));
                 (zero_filled, Remove (Some "key1"%string));
                 (zero_filled, Get (Some "key1"%string))] fresh_table))
       k = Ok v1 ->
     hashmap_get sample_siphash
       (Some (table_after sample_siphash
                [(zero_at_1, Insert (Some "key1"%string) 5);
                 (zero_at_1, Get (Some "key1"%string));
                 (zero_at_1, Remove (Some "key1"%string));
                 (zero_at_1, Get (Some "key1"%string))] fresh_table))
       k = Ok v2 ->
     v1 = v2) /\
  (forall t1 t2 k h,
     secret t1 = secret t2 ->
     hashmap_hash_key sample_siphash (Some t1) k h =
     hashmap_hash_key sample_siphash (Some t2) k h).
Proof.
  apply (runs_agree sample_siphash (fun _ => 0) (fun _ => 0)
           fresh_table fresh_table
           [(zero_filled, Insert (Some "key1"%string) 5);
            (zero_filled, Get (Some "key1"%string));
            (zero_filled, Remove (Some "key1"%string));
            (zero_filled, Get (Some "key1"%string))]
           [(zero_at_1, Insert (Some "key1"%string) 5);
            (zero_at_1, Get (Some "key1"%string));
            (zero_at_1, Remove (Some "key1"%string));
            (zero_at_1, Get (Some "key1"%string))]).
  - reflexivity.
  - reflexivity.
  - reflexivity.
  - repeat constructor.
  - vm_compute. reflexivity.
  - vm_compute. reflexivity.
Defined.

(** Whatever the digest function, an insert whose [realloc] fails stores
    nothing. *)
Lemma get_after_failed_realloc siphash rand k v :
  exists m0 m1,
    hashmap_new true rand = Some m0 /\
    exec siphash ReallocNull (Insert (Some k) v) m0 = Ok (NULL, m1) /\
    hashmap_get siphash (Some m1) (Some k) = Ok NULL.
Proof. eexists. eexists. repeat split. Qed.

(** C10 as the specification states it fails: the same secret and the same
    call, [hashmap_insert(t, "key1", 5)], in one run with [realloc] handing
    out a zero filled block and in the other with [realloc] failing.  Both
    runs return NULL from the insert; [hashmap_get(t, "key1")] then returns 5
    in the first and NULL in the second. *)
Lemma get_depends_on_allocator :
  hashmap_new true (fun _ => 0) = Some fresh_table /\
  run sample_siphash [(zero_filled, Insert (Some "key1"%string) 5)]
    fresh_table =
    Ok ([NULL],
        table_after sample_siphash
          [(zero_filled, Insert (Some "key1"%string) 5)] fresh_table) /\
  run sample_siphash [(ReallocNull, Insert (Some "key1"%string) 5)]
    fresh_table =
    Ok ([NULL],
        table_after sample_siphash
          [(ReallocNull, Insert (Some "key1"%string) 5)] fresh_table) /\
  hashmap_get sample_siphash
    (Some (table_after sample_siphash
             [(zero_filled, Insert (Some "key1"%string) 5)] fresh_table))
    (Some "key1"%string) = Ok 5 /\
  hashmap_get sample_siphash
    (Some (table_after sample_siphash
             [(ReallocNull, Insert (Some "key1"%string) 5)] fresh_table))
    (Some "key1"%string) = Ok NULL /\
  hashmap_get sample_siphash
    (Some (table_after sample_siphash
             [(zero_filled, Insert (Some "key1"%string) 5)] fresh_table))
    (Some "key1"%string) <>
  hashmap_get sample_siphash
    (Some (table_after sample_siphash
             [(ReallocNull, Insert (Some "key1"%string) 5)] fresh_table))
    (Some "key1"%string).
Proof. repeat split; vm_compute; (reflexivity || discriminate). Qed.

(** C5 as the specification states it fails on the table of [hashmap_new]
    when [realloc] fails in the first insert: the insert returns NULL and
    stores nothing, the second insert of the key returns NULL, not the first
    value 5, and [hashmap_get] then returns NULL, not the second value 6. *)
Lemma reinsert_after_failed_growth :
  hashmap_new true (fun _ => 0) = Some fresh_table /\
  hashmap_insert sample_siphash ReallocNull (Some fresh_table)
    (Some "key1"%string) 5 = Ok (NULL, Some failed_table) /\
  hashmap_insert sample_siphash zero_filled (Some failed_table)
    (Some "key1"%string) 6 = Ok (NULL, Some failed_table) /\
  hashmap_insert sample_siphash zero_filled (Some failed_table)
    (Some "key1"%string) 6 <> Ok (5, Some failed_table) /\
  hashmap_get sample_siphash (Some failed_table) (Some "key1"%string) =
    Ok NULL /\
  hashmap_get sample_siphash (Some failed_table) (Some "key1"%string) <>
    Ok 6.
Proof. repeat split; vm_compute; (reflexivity || discriminate). Qed.

(** C6 as the specification states it fails on the table of [hashmap_new]
    when [realloc] fails in the insert: the insert returns NULL and stores
    nothing, and [hashmap_remove] of the key returns NULL, not the value 5. *)
Lemma remove_after_failed_growth :
  hashmap_new true (fun _ => 0) = Some fresh_table /\
  hashmap_insert sample_siphash ReallocNull (Some fresh_table)
    (Some "key1"%string) 5 = Ok (NULL, Some failed_table) /\
  hashmap_remove sample_siphash (Some failed_table) (Some "key1"%string) =
    Ok (NULL, Some failed_table) /\
  hashmap_remove sample_siphash (Some failed_table) (Some "key1"%string) <>
    Ok (5, Some failed_table).
Proof. repeat split; vm_compute; (reflexivity || discriminate). Qed.

(** Where [hashmap_grow] left a slot uncleared, removing a key no node holds
    reads the wild pointer in that slot: "key2" selects bucket 2 of the table
    whose storage is zero in word 1 only. *)
Lemma remove_absent_key_on_uncleared_slot :
  exec sample_siphash zero_at_1 (Insert (Some "key1"%string) 5) fresh_table =
    Ok (NULL, patchy_table) /\
  has_key patchy_table "key2" = false /\
  bucket_ready sample_siphash patchy_table (Some "key2"%string) = false /\
  hashmap_remove sample_siphash (Some patchy_table) (Some "key2"%string) =
    Fault WildDeref.
Proof. repeat split; vm_compute; reflexivity. Qed.

(** Of the three operations in store passing form, insert and remove write
    the table. *)
Lemma insert_and_remove_write :
  hashmap_insert_on sample_siphash zero_filled (Some "key1"%string) 5
    fresh_table = Ok (NULL, one_key_table) /\
  one_key_table <> fresh_table /\
  hashmap_remove_on sample_siphash (Some "key1"%string) one_key_table =
    Ok (5, table_after sample_siphash
             [(zero_filled, Remove (Some "key1"%string))] one_key_table) /\
  table_after sample_siphash
    [(zero_filled, Remove (Some "key1"%string))] one_key_table <>
  one_key_table.
Proof. repeat split; vm_compute; (reflexivity || discriminate). Qed.

(** * Further properties of the code *)

(** ** The digest *)

Lemma lor_shiftl_add a b k :
  a < 2 ^ k -> N.lor a (N.shiftl b k) = a + b * 2 ^ k.
Proof.
  intros Ha. rewrite <- N.shiftl_mul_pow2.
  assert (Hdisj : N.land a (N.shiftl b k) = 0).
  { apply N.bits_inj. intros n. rewrite N.land_spec, N.bits_0.
    destruct (N.lt_ge_cases n k) as [Hn|Hn].
    - rewrite N.shiftl_spec_low by assumption. apply andb_false_r.
    - rewrite <- (N.mod_small a (2 ^ k)) by assumption.
      rewrite N.mod_pow2_bits_high by assumption. reflexivity. }
  rewrite (N.add_nocarry_lxor _ _ Hdisj). symmetry. by apply N.lxor_lor.
Qed.

Lemma byte_to_N_lt (b : byte) : Byte.to_N b < 256.
Proof. pose proof (Byte.to_N_bounded b). lia. Qed.

Section Digest.

Variable siphash : string -> list byte -> nat -> list byte.

(** X1. The digest is the little-endian value of the 8 bytes [siphash]
    wrote (a byte it did not write counts as 0), hence below [2^64]; with a
    NULL map or a NULL key the function returns at once and the word behind
    [hash] keeps its content. *)
Theorem hashmap_hash_key_little_endian m s h :
  let b i := Byte.to_N (nth i (siphash s (secret m) 8) x00) in
  hashmap_hash_key siphash (Some m) (Some s) h =
    b 0%nat + b 1%nat * 2 ^ 8 + b 2%nat * 2 ^ 16 + b 3%nat * 2 ^ 24 +
    b 4%nat * 2 ^ 32 + b 5%nat * 2 ^ 40 + b 6%nat * 2 ^ 48 +
    b 7%nat * 2 ^ 56 /\
  hashmap_hash_key siphash (Some m) (Some s) h < 2 ^ 64 /\
  hashmap_hash_key siphash None (Some s) h = h /\
  hashmap_hash_key siphash (Some m) None h = h.
Proof.
  intros b.
  assert (Hb : forall i, b i < 256) by (intros i; apply byte_to_N_lt).
  assert (Heq : hashmap_hash_key siphash (Some m) (Some s) h =
                b 0%nat + b 1%nat * 2 ^ 8 + b 2%nat * 2 ^ 16 +
                b 3%nat * 2 ^ 24 + b 4%nat * 2 ^ 32 + b 5%nat * 2 ^ 40 +
                b 6%nat * 2 ^ 48 + b 7%nat * 2 ^ 56).
  { unfold hashmap_hash_key. cbn [foldl seq]. fold (b 0%nat) (b 1%nat)
      (b 2%nat) (b 3%nat) (b 4%nat) (b 5%nat) (b 6%nat) (b 7%nat).
    change (N.of_nat 0 * 8) with 0. change (N.of_nat 1 * 8) with 8.
    change (N.of_nat 2 * 8) with 16. change (N.of_nat 3 * 8) with 24.
    change (N.of_nat 4 * 8) with 32. change (N.of_nat 5 * 8) with 40.
    change (N.of_nat 6 * 8) with 48. change (N.of_nat 7 * 8) with 56.
    pose proof (Hb 0%nat). pose proof (Hb 1%nat). pose proof (Hb 2%nat).
    pose proof (Hb 3%nat). pose proof (Hb 4%nat). pose proof (Hb 5%nat).
    pose proof (Hb 6%nat). pose proof (Hb 7%nat).
    rewrite N.shiftl_0_r, N.lor_0_l.
    rewrite (lor_shiftl_add _ _ 8) by (cbn; lia).
    rewrite (lor_shiftl_add _ _ 16) by (cbn; lia).
    rewrite (lor_shiftl_add _ _ 24) by (cbn; lia).
    rewrite (lor_shiftl_add _ _ 32) by (cbn; lia).
    rewrite (lor_shiftl_add _ _ 40) by (cbn; lia).
    rewrite (lor_shiftl_add _ _ 48) by (cbn; lia).
    rewrite (lor_shiftl_add _ _ 56) by (cbn; lia).
    reflexivity. }
  split; [exact Heq|]. split; [|split; reflexivity].
  rewrite Heq.
  pose proof (Hb 0%nat). pose proof (Hb 1%nat). pose proof (Hb 2%nat).
  pose proof (Hb 3%nat). pose proof (Hb 4%nat). pose proof (Hb 5%nat).
  pose proof (Hb 6%nat). pose proof (Hb 7%nat).
  cbn. lia.
Qed.

End Digest.

(** ** Growth, on any table *)

Lemma wrap64_small n : n < 2 ^ 64 -> wrap64 n = n.
Proof. intros. unfold wrap64. by apply N.mod_small. Qed.

(** X2. When [hashmap_grow] enlarges a table and [realloc] hands out a
    block, the table counts [n] buckets and has [n] slots; every slot it had
    keeps its place and content, and each added slot holds what [realloc]
    left there. *)
Theorem hashmap_grow_keeps_slots fresh m n :
  buckets m < n ->
  n * sizeof_slot < 2 ^ 64 ->
  (length (default [] (entries m)) <= N.to_nat n)%nat ->
  exists es',
    hashmap_grow (ReallocBlock fresh) (Some m) n =
      Ok (Some {| len := len m; buckets := n; secret := secret m;
                  entries := Some es' |}) /\
    length es' = N.to_nat n /\
    (forall i s, default [] (entries m) !! i = Some s -> es' !! i = Some s) /\
    (forall i,
       (length (default [] (entries m)) <= i < N.to_nat n)%nat ->
       es' !! i = Some (slot_of_word (fresh i))).
Proof.
  intros Hlt Hsz Hlen. rewrite hashmap_grow_eq.
  destruct (N.leb_spec n (buckets m)) as [Hle|_]; [lia|].
  rewrite wrap64_small by assumption.
  unfold realloc. rewrite N.div_mul by discriminate.
  set (old := default [] (entries m)) in *.
  rewrite take_ge by exact Hlen.
  eexists. split; [reflexivity|]. split; [|split].
  - rewrite length_app, length_fmap, length_seq. lia.
  - intros i s Hi. rewrite lookup_app_l by (eapply lookup_lt_Some, Hi).
    exact Hi.
  - intros i Hi. rewrite lookup_app_r by lia.
    rewrite list_lookup_fmap. rewrite lookup_seq_lt by lia. cbn.
    do 3 f_equal. lia.
Qed.


(** ** After a failed growth *)

Section FailedGrowth.

Variable siphash : string -> list byte -> nat -> list byte.

Lemma exec_inert r op m :
  inert m = true -> load_factor_high m = false ->
  exec siphash r op m = Ok (NULL, m).
Proof.
  unfold inert. destruct (entries m) as [es|] eqn:He; [discriminate|].
  intros Hb Hlow. apply negb_true_iff in Hb.
  destruct op as [k v|k|k]; unfold exec.
  - unfold hashmap_insert, hashmap_grow_if_needed. rewrite Hb, Hlow.
    rewrite bind_Ok_l, He. reflexivity.
  - unfold hashmap_get. rewrite He. reflexivity.
  - unfold hashmap_remove. rewrite He. reflexivity.
Qed.

Lemma run_inert tr m :
  inert m = true -> load_factor_high m = false ->
  run siphash tr m = Ok (replicate (length tr) NULL, m).
Proof.
  intros Hi Hlow. induction tr as [|[r op] tr IH]; cbn [run]; [reflexivity|].
  rewrite exec_inert by assumption. rewrite bind_Ok_l. cbv beta iota.
  rewrite IH. reflexivity.
Qed.

(** X4. On a table a program can hold that has no bucket yet, a
    [hashmap_insert] whose [realloc] fails returns NULL and leaves the table
    with 8 buckets and no storage; from then on every call, whatever
    [realloc] would answer, returns NULL and changes nothing: the storage is
    never requested again. *)
Theorem failed_growth_is_final k v m tr :
  reachable siphash m ->
  buckets m = 0 ->
  let m1 := {| len := len m; buckets := 8; secret := secret m;
               entries := None |} in
  exec siphash ReallocNull (Insert k v) m = Ok (NULL, m1) /\
  run siphash tr m1 = Ok (replicate (length tr) NULL, m1).
Proof.
  intros Hreach Hz m1. apply reachable_inv in Hreach as [Hl _ _ _]. split.
  - apply exec_Insert. unfold hashmap_insert.
    rewrite hashmap_grow_if_needed_unsized by assumption. reflexivity.
  - apply run_inert; [reflexivity|].
    apply load_factor_low; cbn; [assumption|discriminate|reflexivity].
Qed.

End FailedGrowth.

(** ** Destruction *)

(** X5. [hashmap_free] on a table that counts buckets and has no storage
    (the table a failed growth leaves) reads [entries[0]] through the NULL
    pointer. *)
Theorem hashmap_free_after_failed_growth m :
  inert m = true -> hashmap_free (Some (Some m)) = Fault NullDeref.
Proof.
  unfold inert, hashmap_free. destruct (entries m) as [es|]; [discriminate|].
  intros Hb. apply negb_true_iff, N.eqb_neq in Hb.
  destruct (N.to_nat (buckets m)) as [|n] eqn:Hn; [lia|].
  cbn [seq foldl].
  match goal with
  | |- context [foldl ?F ?a ?l] =>
      change a with (@Fault (list Entry) NullDeref)
  end.
  rewrite foldl_fault by reflexivity. reflexivity.
Qed.

Lemma free_walk (pre suf : list Slot) done :
  forallb slot_is_head suf = true ->
  foldl (fun acc i =>
           done ← acc; c ← free_chain_at (Some (pre ++ suf)) i; Ok (done ++ c))
        (Ok done) (seq (length pre) (length suf)) =
  Ok (done ++ concat (slot_chain <$> suf)).
Proof.
  revert pre done. induction suf as [|s suf IH]; intros pre done Hall.
  - cbn. by rewrite app_nil_r.
  - cbn in Hall. apply andb_true_iff in Hall as [Hs Hall].
    destruct s as [|c]; [discriminate|].
    cbn [length seq foldl]. rewrite bind_Ok_l.
    unfold free_chain_at at 2. unfold load_chain. rewrite Nat2N.id.
    rewrite list_lookup_middle by reflexivity. rewrite bind_Ok_l.
    specialize (IH (pre ++ [Head c]) (done ++ c) Hall).
    rewrite length_app in IH. cbn [length] in IH.
    rewrite Nat.add_1_r, <- app_assoc in IH. cbn [app] in IH.
    rewrite IH. cbn. by rewrite app_assoc.
Qed.

(** X6. On a table without bucket and storage, or with one initialised slot
    per bucket, [hashmap_free] releases every node of every chain once, slot
    by slot in chain order, and stores NULL in the handle; on a NULL
    argument and on a handle that holds NULL it does nothing. *)
Theorem hashmap_free_releases_all m :
  freeable m = true ->
  hashmap_free (Some (Some m)) = Ok (table_nodes m, Some None) /\
  hashmap_free (Some None) = Ok ([], Some None) /\
  hashmap_free None = Ok ([], None).
Proof.
  intros Hfree. split; [|split; reflexivity].
  unfold freeable, clean_slots in Hfree. unfold hashmap_free, table_nodes.
  destruct (entries m) as [es|].
  - apply andb_true_iff in Hfree as [Hlen Hall]. apply N.eqb_eq in Hlen.
    rewrite <- Hlen, Nat2N.id.
    pose proof (free_walk [] es [] Hall) as Hwalk. cbn [app length] in Hwalk.
    rewrite Hwalk. reflexivity.
  - apply N.eqb_eq in Hfree. rewrite Hfree. reflexivity.
Qed.

(** X7. [hashmap_free] walks every bucket: where a slot below the bucket
    count holds a wild pointer (a slot [hashmap_grow] added and no insert has
    written), the call does not return. *)
Theorem hashmap_free_reads_every_slot m es i :
  entries m = Some es ->
  es !! i = Some Wild ->
  N.of_nat i < buckets m ->
  exists f, hashmap_free (Some (Some m)) = Fault f.
Proof.
  intros He Hi Hlt. unfold hashmap_free. rewrite He.
  assert (Hsplit : seq 0 (N.to_nat (buckets m)) =
                   seq 0 i ++ i :: seq (S i) (N.to_nat (buckets m) - S i)).
  { replace (N.to_nat (buckets m)) with (i + S (N.to_nat (buckets m) - S i))%nat
      at 1 by lia.
    rewrite seq_app. reflexivity. }
  rewrite Hsplit, foldl_app. cbn [foldl].
  destruct (foldl _ (Ok []) (seq 0 i)) as [done|f].
  - match goal with
    | |- context [foldl ?F ?a ?l] =>
        replace a with (@Fault (list Entry) WildDeref)
    end.
    + rewrite foldl_fault by reflexivity. eexists. reflexivity.
    + rewrite bind_Ok_l. unfold free_chain_at, load_chain.
      rewrite Nat2N.id, Hi. reflexivity.
  - match goal with
    | |- context [foldl ?F ?a ?l] =>
        change a with (@Fault (list Entry) f)
    end.
    rewrite foldl_fault by reflexivity. eexists. reflexivity.
Qed.

(** ** Construction with a bucket count *)

(** X8. [hashmap_with_buckets(n)], when both allocations succeed, makes a
    table with [len = 0], [n] buckets and [n] empty chains; for [n > 0] it is
    a table every call can work on. *)
Theorem hashmap_with_buckets_makes_empty_chains rand n :
  n * sizeof_slot < 2 ^ 64 ->
  exists m,
    hashmap_with_buckets true rand CallocBlock n = Ok (Some m) /\
    len m = 0 /\ buckets m = n /\
    entries m = Some (replicate (N.to_nat n) (Head [])) /\
    table_nodes m = [] /\
    (0 < n -> usable m = true).
Proof.
  intros Hsz. unfold hashmap_with_buckets, hashmap_new, calloc_slots.
  cbn [set_buckets set_entries len buckets secret entries].
  destruct (N.leb_spec (2 ^ 64) (n * sizeof_slot)) as [?|_]; [lia|].
  rewrite store_nulls_cleared, bind_Ok_l.
  eexists. split; [reflexivity|]. cbn [len buckets entries set_entries].
  repeat split.
  - unfold table_nodes. cbn [entries set_entries default].
    induction (N.to_nat n) as [|k IH]; [reflexivity|exact IH].
  - intros Hn. unfold usable, clean_slots.
    cbn [entries buckets set_entries set_buckets].
    rewrite length_replicate, N2Nat.id, N.eqb_refl.
    destruct (N.eqb_spec n 0) as [?|_]; [lia|]. cbn.
    induction (N.to_nat n) as [|k IH]; [reflexivity|exact IH].
Qed.

(** X9. [hashmap_with_buckets] does not test what [calloc] returns for the
    slots: when that is NULL (the allocation fails, or [n * 8] passes
    [2^64]) and [n > 0], the loop that clears the slots writes through the
    NULL pointer.  When the map itself cannot be allocated the function
    returns NULL. *)
Theorem hashmap_with_buckets_unchecked_calloc rand c n :
  0 < n ->
  c = CallocNull \/ 2 ^ 64 <= n * sizeof_slot ->
  hashmap_with_buckets true rand c n = Fault NullDeref /\
  hashmap_with_buckets false rand c n = Ok None.
Proof.
  intros Hn Hc. split; [|reflexivity].
  unfold hashmap_with_buckets, hashmap_new.
  cbn [set_buckets set_entries len buckets secret entries].
  assert (calloc_slots c n = None) as ->.
  { unfold calloc_slots. destruct Hc as [->|Hc]; [reflexivity|].
    destruct c; [reflexivity|].
    by destruct (N.leb_spec (2 ^ 64) (n * sizeof_slot)); [|lia]. }
  unfold store_nulls. change (N.to_nat 0) with 0%nat. rewrite Nat.sub_0_r.
  destruct (N.to_nat n) as [|k] eqn:Hk; [lia|].
  cbn [seq foldl].
  match goal with
  | |- context [foldl ?F ?a ?l] =>
      change a with (@Fault (option (list Slot)) NullDeref)
  end.
  rewrite foldl_fault by reflexivity. reflexivity.
Qed.

Section ZeroBuckets.

Variable siphash : string -> list byte -> nat -> list byte.

(** X10. [hashmap_with_buckets(0)], when [calloc(0, ..)] returns a block,
    makes a table with storage and no bucket: [hashmap_get] and
    [hashmap_remove] on it compute [hash % 0], whatever the key. *)
Theorem zero_buckets_divide_by_zero rand k :
  exists m,
    hashmap_with_buckets true rand CallocBlock 0 = Ok (Some m) /\
    buckets m = 0 /\ entries m = Some [] /\
    hashmap_get siphash (Some m) k = Fault DivByZero /\
    hashmap_remove siphash (Some m) k = Fault DivByZero.
Proof. eexists. repeat split. Qed.

End ZeroBuckets.

(** ** Calls that cannot fault *)

Lemma chain_get_total c k : exists v, chain_get c (Some k) = Ok v.
Proof.
  induction c as [|e c [v IH]]; cbn; [eauto|].
  destruct (String.eqb (key e) k); eauto.
Qed.

Lemma chain_remove_total c k :
  exists v c', chain_remove c (Some k) = Ok (v, c').
Proof.
  induction c as [|e c (v & c' & IH)]; cbn; [eauto|].
  destruct (String.eqb (key e) k); [eauto|]. rewrite IH. cbn. eauto.
Qed.

Lemma heads_lookup (es : list Slot) i :
  forallb slot_is_head es = true -> (i < length es)%nat ->
  exists c, es !! i = Some (Head c).
Proof.
  revert i. induction es as [|s es IH]; intros i Hall Hi; cbn in *; [lia|].
  apply andb_true_iff in Hall as [Hs Hall].
  destruct i as [|i]; [|apply IH; [assumption|lia]].
  destruct s as [|c]; [discriminate|]. eauto.
Qed.

Lemma heads_insert (es : list Slot) i c :
  forallb slot_is_head es = true ->
  forallb slot_is_head (<[i := Head c]> es) = true.
Proof.
  revert i. induction es as [|s es IH]; intros i Hall; [reflexivity|].
  cbn in Hall. apply andb_true_iff in Hall as [Hs Hall].
  destruct i as [|i]; cbn; [assumption|]. rewrite Hs. by apply IH.
Qed.

Lemma usable_inv m :
  usable m = true ->
  exists es, entries m = Some es /\ buckets m <> 0 /\
             N.of_nat (length es) = buckets m /\
             forallb slot_is_head es = true.
Proof.
  unfold usable, clean_slots. destruct (entries m) as [es|]; [|discriminate].
  intros H. apply andb_true_iff in H as [Hnz H].
  apply andb_true_iff in H as [Hlen Hall].
  apply negb_true_iff, N.eqb_neq in Hnz. apply N.eqb_eq in Hlen. eauto.
Qed.

Lemma usable_set_entries m es i c :
  entries m = Some es -> usable m = true ->
  usable (set_entries (Some (<[i := Head c]> es)) m) = true.
Proof.
  intros He Hu. destruct (usable_inv _ Hu) as (es' & He' & Hnz & Hlen & Hall).
  simplify_eq. unfold usable, clean_slots. cbn [entries set_entries buckets].
  rewrite length_insert, Hlen, N.eqb_refl, heads_insert by assumption.
  by destruct (N.eqb_spec (buckets m) 0).
Qed.

Section Safety.

Variable siphash : string -> list byte -> nat -> list byte.

Lemma usable_bucket m k es :
  entries m = Some es -> usable m = true ->
  exists c, es !! bucket_of siphash m k = Some (Head c).
Proof.
  intros He Hu. destruct (usable_inv _ Hu) as (es' & He' & Hnz & Hlen & Hall).
  simplify_eq. apply heads_lookup; [assumption|].
  unfold bucket_of.
  pose proof (N.mod_upper_bound (hashmap_hash_key siphash (Some m) k 0)
                (buckets m) Hnz).
  lia.
Qed.

(** [hashmap_insert] once [hashmap_grow_if_needed] has left a usable
    table. *)
Lemma hashmap_insert_on_usable r m g k v :
  hashmap_grow_if_needed r (Some m) = Ok (Some g) ->
  usable g = true ->
  exists old g',
    hashmap_insert siphash r (Some m) (Some k) v = Ok (old, Some g') /\
    usable g' = true /\ len g' = len g /\ buckets g' = buckets g.
Proof.
  intros Hg Hu. destruct (usable_inv _ Hu) as (es & He & Hnz & Hlen & Hall).
  destruct (usable_bucket g (Some k) es He Hu) as [c Hc].
  destruct (chain_insert_total c k v) as (old & c' & Hins).
  exists old. eexists. split; [|split; [|split]].
  - unfold hashmap_insert. rewrite Hg, bind_Ok_l, He.
    apply load_chain_Ok in Hc. unfold bucket_of in Hc. unfold umod.
    destruct (N.eqb_spec (buckets g) 0); [contradiction|].
    rewrite bind_Ok_l, Hc, bind_Ok_l, Hins. reflexivity.
  - by apply usable_set_entries.
  - reflexivity.
  - reflexivity.
Qed.

Lemma exec_sound r op m :
  sound m = true -> len m = 0 -> buckets m < 2 ^ 64 ->
  tame r -> keyed op = true ->
  exists v m',
    exec siphash r op m = Ok (v, m') /\
    sound m' = true /\ len m' = 0 /\ buckets m' < 2 ^ 64.
Proof.
  intros Hs Hl Hb Hr Hk. unfold sound in Hs.
  destruct (usable m) eqn:Hu.
  - (* storage with one chain per bucket *)
    destruct (usable_inv _ Hu) as (es & He & Hnz & Hlen & Hall).
    assert (Hbucket : forall k, exists c,
               es !! bucket_of siphash m (Some k) = Some (Head c))
      by (intros k; by apply usable_bucket).
    destruct op as [[k|] v|[k|]|[k|]]; try discriminate.
    + destruct (hashmap_insert_on_usable r m m k v) as (old & g' & Hi & Hu' & Hl' & Hb');
        [by apply hashmap_grow_if_needed_idle|assumption|].
      exists old, g'. split; [by apply exec_Insert|].
      unfold sound. rewrite Hu', orb_true_r. cbn. split; [reflexivity|].
      split; congruence.
    + destruct (Hbucket k) as [c Hc]. destruct (chain_get_total c k) as [x Hx].
      exists x, m. split.
      * apply exec_Get. split; [|reflexivity].
        by rewrite (hashmap_get_at _ _ _ es c).
      * unfold sound. rewrite Hu, orb_true_r. auto.
    + destruct (Hbucket k) as [c Hc].
      destruct (chain_remove_total c k) as (x & c' & Hx).
      exists x. eexists. split.
      * apply exec_Remove. rewrite (hashmap_remove_at _ _ _ es c) by assumption.
        rewrite Hx. reflexivity.
      * unfold sound. rewrite usable_set_entries by assumption.
        rewrite orb_true_r. auto.
  - rewrite orb_false_r in Hs. 
    destruct (inert m) eqn:Hi.
    + (* the first growth has failed *)
      exists NULL, m. split.
      * apply exec_inert; [assumption|]. unfold inert in Hi.
        destruct (entries m); [discriminate|].
        apply negb_true_iff, N.eqb_neq in Hi. by apply load_factor_low.
      * unfold sound. rewrite Hi, orb_true_r. auto.
    + (* no bucket yet *)
      rewrite orb_false_r in Hs. unfold unsized in Hs.
      destruct (entries m) as [es|] eqn:He; [discriminate|].
      apply N.eqb_eq in Hs.
      destruct op as [[k|] v|[k|]|[k|]]; try discriminate.
      * destruct Hr as [-> | ->].
        -- eexists. eexists. split.
           ++ apply exec_Insert. unfold hashmap_insert.
              rewrite hashmap_grow_if_needed_unsized by assumption.
              rewrite He. reflexivity.
           ++ cbn. rewrite Hl. repeat split.
        -- destruct (hashmap_insert_on_usable zero_filled m
                       {| len := len m; buckets := 8; secret := secret m;
                          entries := Some (replicate 8 (Head [])) |} k v)
             as (old & g' & Hins & Hu' & Hl' & Hb').
           { rewrite hashmap_grow_if_needed_unsized by assumption.
             rewrite He. reflexivity. }
           { reflexivity. }
           exists old, g'. split; [by apply exec_Insert|].
           unfold sound. rewrite Hu', orb_true_r. cbn [orb].
           rewrite Hl', Hb'. cbn. repeat split; try assumption; try reflexivity.
      * exists NULL, m. split.
        -- apply exec_Get. unfold hashmap_get. rewrite He. auto.
        -- unfold sound, unsized. rewrite He, Hs.
           repeat split; try assumption; try reflexivity.
      * exists NULL, m. split.
        -- apply exec_Remove. unfold hashmap_remove. rewrite He. auto.
        -- unfold sound, unsized. rewrite He, Hs.
           repeat split; try assumption; try reflexivity.
Qed.

(** X11. On the table of [hashmap_new], on a table
    [hashmap_with_buckets(n)] made with [n > 0], and on every table calls
    have led to from these (a table without bucket and storage, a table with
    one initialised slot per bucket, or a table whose growth failed), a
    sequence of inserts, gets and removes with keys that are not NULL runs to
    its end without fault, as long as [realloc] fails or hands out zero
    filled memory and the node and the key copy of every insert can be
    allocated (the [calloc] and [strdup] of [hashmap_insert], which the
    embedding takes to succeed). *)
Theorem calls_run_without_fault m tr :
  reachable siphash m ->
  sound m = true ->
  Forall (fun c => tame (fst c) /\ keyed (snd c) = true) tr ->
  exists rs m',
    run siphash tr m = Ok (rs, m') /\ sound m' = true.
Proof.
  intros Hreach Hs Htr. apply reachable_inv in Hreach as [Hl Hb _ _].
  revert m Hs Hl Hb. induction Htr as [|[r op] tr [Hr Hk] _ IH];
    intros m Hs Hl Hb; cbn [run].
  - eauto.
  - destruct (exec_sound r op m Hs Hl Hb Hr Hk)
      as (v & m1 & Hex & Hs1 & Hl1 & Hb1).
    destruct (IH m1 Hs1 Hl1 Hb1) as (rs & m' & Hrun & Hs').
    exists (v :: rs), m'. rewrite Hex, bind_Ok_l. cbv beta iota.
    rewrite Hrun. auto.
Qed.

End Safety.

(** ** The nodes of a table *)

Lemma chain_insert_get_other c k v old c' k' :
  chain_insert c (Some k) v = Ok (old, c') -> k' <> k ->
  chain_get c' (Some k') = chain_get c (Some k').
Proof.
  revert old c'. induction c as [|e c IH]; cbn; intros old c' H Hne.
  - ok_inv. cbn. destruct (String.eqb_spec k k'); [congruence|reflexivity].
  - destruct (String.eqb_spec (key e) k) as [Hk|Hk].
    + ok_inv. cbn.
      destruct (String.eqb_spec (key e) k'); [congruence|reflexivity].
    + ok_inv. cbn. destruct (String.eqb (key e) k'); [reflexivity|]. eauto.
Qed.

Lemma chain_remove_get_other c k v c' k' :
  chain_remove c (Some k) = Ok (v, c') -> k' <> k ->
  chain_get c' (Some k') = chain_get c (Some k').
Proof.
  revert v c'. induction c as [|e c IH]; cbn; intros v c' H Hne.
  - by ok_inv.
  - destruct (String.eqb_spec (key e) k) as [Hk|Hk].
    + ok_inv. destruct (String.eqb_spec (key e) k'); [congruence|reflexivity].
    + ok_inv. cbn. destruct (String.eqb (key e) k'); [reflexivity|]. eauto.
Qed.

Lemma chain_insert_elems c k v old c' e :
  chain_insert c (Some k) v = Ok (old, c') -> e ∈ c' -> key e = k \/ e ∈ c.
Proof.
  revert old c'. induction c as [|x c IH]; cbn; intros old c' H He.
  - ok_inv. apply list_elem_of_singleton in He as ->. by left.
  - destruct (String.eqb_spec (key x) k) as [Hk|Hk].
    + ok_inv. apply elem_of_cons in He as [->|He]; [by left|].
      right. by right.
    + ok_inv. apply elem_of_cons in He as [->|He]; [right; by left|].
      destruct (IH _ _ Ha He); [by left|right; by right].
Qed.

(** The values of a chain before and after an insert. *)
Lemma chain_insert_values c k v old c' :
  chain_insert c (Some k) v = Ok (old, c') ->
  (k ∈ (key <$> c) /\ old :: (value <$> c') ≡ₚ v :: (value <$> c)) \/
  ((k ∉ (key <$> c)) /\ old = NULL /\
   c' = c ++ [ {| key := k; value := v |} ]).
Proof.
  revert old c'. induction c as [|e c IH]; cbn; intros old c' H.
  - ok_inv. right. split; [apply not_elem_of_nil|auto].
  - destruct (String.eqb_spec (key e) k) as [<-|Hne].
    + ok_inv. left. split; [left|]. cbn. apply perm_swap.
    + ok_inv. destruct (IH _ _ Ha) as [[Hin Hp]|(Hnin & -> & ->)].
      * left. split; [by right|]. cbn.
        rewrite perm_swap, Hp. apply perm_swap.
      * right. split; [|auto]. rewrite not_elem_of_cons. auto.
Qed.

(** The values of a chain before and after a remove. *)
Lemma chain_remove_values c k v c' :
  chain_remove c (Some k) = Ok (v, c') ->
  (k ∈ (key <$> c) /\ value <$> c ≡ₚ v :: (value <$> c')) \/
  ((k ∉ (key <$> c)) /\ v = NULL /\ c' = c).
Proof.
  revert v c'. induction c as [|e c IH]; cbn; intros v c' H.
  - ok_inv. right. split; [apply not_elem_of_nil|auto].
  - destruct (String.eqb_spec (key e) k) as [<-|Hne].
    + ok_inv. left. split; [left|reflexivity].
    + ok_inv. destruct (IH _ _ Ha) as [[Hin Hp]|(Hnin & -> & ->)].
      * left. split; [by right|]. cbn. rewrite Hp. apply perm_swap.
      * right. split; [|auto]. rewrite not_elem_of_cons. auto.
Qed.

Lemma chain_get_stored c k v :
  chain_get c (Some k) = Ok v ->
  (exists e, e ∈ c /\ key e = k /\ value e = v) \/ v = NULL.
Proof.
  induction c as [|e c IH]; cbn; intros H.
  - ok_inv. by right.
  - destruct (String.eqb_spec (key e) k) as [Hk|Hk].
    + ok_inv. left. exists e. split; [left|auto].
    + destruct (IH H) as [(x & Hx & Hkx & Hvx)|Hv]; [|by right].
      left. exists x. split; [by right|auto].
Qed.

Lemma chain_get_nodup c e :
  NoDup (key <$> c) -> e ∈ c -> chain_get c (Some (key e)) = Ok (value e).
Proof.
  induction c as [|x c IH]; cbn; intros Hnd He; [by apply elem_of_nil in He|].
  apply NoDup_cons in Hnd as [Hx Hnd].
  apply elem_of_cons in He as [->|He].
  - by rewrite String.eqb_refl.
  - destruct (String.eqb_spec (key x) (key e)) as [Hk|Hk]; [|auto].
    exfalso. apply Hx. rewrite Hk. by apply list_elem_of_fmap_2.
Qed.

(** The nodes around one slot. *)
Lemma nodes_around_slot (es : list Slot) i c :
  es !! i = Some (Head c) ->
  exists before after,
    concat (slot_chain <$> es) = before ++ c ++ after /\
    forall c',
      concat (slot_chain <$> <[i := Head c']> es) = before ++ c' ++ after.
Proof.
  intros Hi.
  exists (concat (slot_chain <$> take i es)),
         (concat (slot_chain <$> drop (S i) es)).
  split.
  - rewrite <- (take_drop_middle es i (Head c) Hi) at 1.
    rewrite fmap_app, concat_app. reflexivity.
  - intros c'. rewrite insert_take_drop by (eapply lookup_lt_Some, Hi).
    rewrite fmap_app, concat_app. reflexivity.
Qed.

Lemma node_count_length m : node_count m = length (table_nodes m).
Proof.
  unfold node_count, table_nodes.
  induction (default [] (entries m)) as [|s es IH]; [reflexivity|].
  cbn. rewrite length_app, IH. by destruct s.
Qed.

Lemma elem_of_table_nodes m e :
  e ∈ table_nodes m <->
  exists es i c, entries m = Some es /\ es !! i = Some (Head c) /\ e ∈ c.
Proof.
  unfold table_nodes. rewrite list_elem_of_In, in_concat. split.
  - intros (c & Hc & He). apply list_elem_of_In, list_elem_of_fmap_1 in Hc.
    destruct Hc as (s & -> & Hs). apply list_elem_of_lookup_1 in Hs as [i Hi].
    destruct s as [|c]; [destruct He|].
    destruct (entries m) as [es|]; cbn [default] in Hi; [|discriminate].
    exists es, i, c. split; [reflexivity|]. split; [exact Hi|].
    by apply list_elem_of_In.
  - intros (es & i & c & -> & Hi & He). exists c. split.
    + apply list_elem_of_In.
      apply (list_elem_of_fmap_2 slot_chain _ (Head c)).
      eapply list_elem_of_lookup_2, Hi.
    + by apply list_elem_of_In.
Qed.

Lemma blank_head c : blank (Head c) -> c = [].
Proof. intros [H|H]; by simplify_eq. Qed.

Lemma realloc_of_nothing r old size :
  default [] old = [] -> Forall blank (default [] (realloc r old size)).
Proof.
  intros Hold. destruct r as [|fresh]; cbn; [constructor|].
  rewrite Hold, take_nil. cbn. apply Forall_fmap, Forall_forall.
  intros i _. apply blank_slot_of_word.
Qed.

(** What [hashmap_grow_if_needed] does on a table a program can hold:
    nothing, or the first growth, which finds no node. *)
Lemma grow_cases r m g :
  table_inv m ->
  hashmap_grow_if_needed r (Some m) = Ok (Some g) ->
  (buckets m <> 0 /\ g = m) \/
  (buckets m = 0 /\ buckets g = 8 /\ len g = len m /\
   secret g = secret m /\ default [] (entries m) = [] /\
   Forall blank (default [] (entries g))).
Proof.
  intros [Hl Hb Hn Hu] Hg.
  destruct (N.eq_dec (buckets m) 0) as [Hz|Hz].
  - right. rewrite hashmap_grow_if_needed_unsized in Hg by assumption.
    simplify_eq. cbn.
    assert (default [] (entries m) = []) as Hempty
      by (by destruct (Hu Hz) as [-> | ->]).
    repeat split; try assumption. by apply realloc_of_nothing.
  - left. split; [assumption|].
    rewrite hashmap_grow_if_needed_idle in Hg by assumption. by simplify_eq.
Qed.

Section Nodes.

Variable siphash : string -> list byte -> nat -> list byte.

(** A call that rewrites one chain without changing what [hashmap_get]
    finds in it for [k'] does not change [hashmap_get] for [k']. *)
Lemma hashmap_get_set_slot m es b c c' k' :
  entries m = Some es -> es !! b = Some (Head c) ->
  chain_get c' k' = chain_get c k' ->
  hashmap_get siphash (Some (set_entries (Some (<[b := Head c']> es)) m)) k' =
  hashmap_get siphash (Some m) k'.
Proof.
  intros He Hb Hc. unfold hashmap_get. cbn [entries set_entries buckets].
  rewrite He.
  change (hashmap_hash_key siphash (Some (set_entries _ m)) k' 0)
    with (hashmap_hash_key siphash (Some m) k' 0).
  unfold umod. destruct (N.eqb_spec (buckets m) 0); [reflexivity|].
  rewrite !bind_Ok_l. unfold load_chain.
  set (b' := N.to_nat (hashmap_hash_key siphash (Some m) k' 0 mod buckets m)).
  destruct (decide (b = b')) as [<-|Hne].
  - rewrite list_lookup_insert_eq by (eapply lookup_lt_Some, Hb).
    rewrite Hb. exact Hc.
  - by rewrite list_lookup_insert_ne.
Qed.

(** X12. [hashmap_remove(t, k)] does not change what [hashmap_get] does for
    any other key, on any table. *)
Theorem remove_keeps_other_keys m k k' v m' :
  hashmap_remove siphash (Some m) (Some k) = Ok (v, Some m') ->
  k' <> k ->
  hashmap_get siphash (Some m') (Some k') =
  hashmap_get siphash (Some m) (Some k').
Proof.
  intros H Hne.
  destruct (hashmap_remove_inv _ _ _ _ _ H)
    as [(_ & _ & ?)|(es & c & c' & He & _ & Hl & Hc & ?)];
    simplify_eq; [reflexivity|].
  apply (hashmap_get_set_slot m es _ c c'); [assumption..|].
  eapply chain_remove_get_other; eassumption.
Qed.

Lemma hashmap_insert_get_other r m k k' v old m' :
  table_inv m ->
  hashmap_insert siphash r (Some m) (Some k) v = Ok (old, Some m') ->
  k' <> k ->
  (buckets m <> 0 ->
   hashmap_get siphash (Some m') (Some k') =
   hashmap_get siphash (Some m) (Some k')) /\
  (buckets m = 0 ->
   forall x, hashmap_get siphash (Some m') (Some k') = Ok x -> x = NULL).
Proof.
  intros Hreach H Hne.
  destruct (hashmap_insert_inv _ _ _ _ _ _ _ H)
    as (g & Hg & [(He & _ & ?)|(es & c & c' & He & Hb & Hl & Hc & ?)]);
    simplify_eq;
    (destruct (grow_cases _ _ _ Hreach Hg)
      as [[Hnz ->]|(Hz & _ & _ & _ & _ & Hblank)]; split; try contradiction).
  - reflexivity.
  - intros _ x Hx. unfold hashmap_get in Hx. rewrite He in Hx. by ok_inv.
  - intros _. apply (hashmap_get_set_slot m es _ c c'); [assumption..|].
    eapply chain_insert_get_other; eassumption.
  - intros _ x Hx. rewrite He in Hblank. cbn in Hblank.
    assert (c = []) as ->
      by (apply blank_head; eapply Forall_lookup_1; eassumption).
    cbn in Hc. ok_inv.
    destruct (hashmap_get_inv _ _ _ _ Hx)
      as [(_ & ->)|(es' & c1 & He' & _ & Hl' & Hc1)]; [reflexivity|].
    cbn in He'. simplify_eq.
    change (bucket_of siphash (set_entries _ g) (Some k'))
      with (bucket_of siphash g (Some k')) in Hl'.
    destruct (decide (bucket_of siphash g (Some k) =
                      bucket_of siphash g (Some k'))) as [Heq|Hneq].
    + rewrite <- Heq, list_lookup_insert_eq in Hl'
        by (eapply lookup_lt_Some, Hl).
      simplify_eq. cbn in Hc1.
      destruct (String.eqb_spec k k'); [congruence|by ok_inv].
    + rewrite list_lookup_insert_ne in Hl' by assumption.
      assert (c1 = []) as ->
        by (apply blank_head; eapply Forall_lookup_1; eassumption).
      cbn in Hc1. by ok_inv.
Qed.

(** X13. On a table a program can hold, [hashmap_insert(t, k, v)] does not
    change what [hashmap_get] does for any other key once the table has
    buckets; on the insert that gives the table its first buckets, no other
    key is found afterwards. *)
Theorem insert_keeps_other_keys r m k k' v old m' :
  reachable siphash m ->
  hashmap_insert siphash r (Some m) (Some k) v = Ok (old, Some m') ->
  k' <> k ->
  (buckets m <> 0 ->
   hashmap_get siphash (Some m') (Some k') =
   hashmap_get siphash (Some m) (Some k')) /\
  (buckets m = 0 ->
   forall x, hashmap_get siphash (Some m') (Some k') = Ok x -> x = NULL).
Proof.
  intros Hreach. apply hashmap_insert_get_other.
  eapply reachable_inv, Hreach.
Qed.

End Nodes.

(** ** Every node is where its key is looked up *)

Section Placement.

Variable siphash : string -> list byte -> nat -> list byte.

Lemma placed_no_node m :
  Forall blank (default [] (entries m)) -> placed siphash m.
Proof.
  intros Hblank es i c e He Hi Hin. rewrite He in Hblank. cbn in Hblank.
  assert (c = []) as -> by (apply blank_head; eapply Forall_lookup_1; eassumption).
  by apply elem_of_nil in Hin.
Qed.

Lemma placed_set_slot m es b c c' :
  placed siphash m -> entries m = Some es -> es !! b = Some (Head c) ->
  (forall e, e ∈ c' ->
             bucket_of siphash m (Some (key e)) = b \/ e ∈ c) ->
  placed siphash (set_entries (Some (<[b := Head c']> es)) m).
Proof.
  intros Hp He Hb Hc' es' i ci e He' Hi Hin. cbn in He'. simplify_eq.
  change (bucket_of siphash (set_entries _ m) (Some (key e)))
    with (bucket_of siphash m (Some (key e))).
  destruct (decide (b = i)) as [<-|Hne].
  - rewrite list_lookup_insert_eq in Hi by (eapply lookup_lt_Some, Hb).
    simplify_eq. destruct (Hc' e Hin) as [?|Hold]; [assumption|].
    eapply Hp; eassumption.
  - rewrite list_lookup_insert_ne in Hi by assumption.
    eapply Hp; eassumption.
Qed.

Lemma exec_placed r op m v m' :
  table_inv m -> placed siphash m ->
  exec siphash r op m = Ok (v, m') -> placed siphash m'.
Proof.
  intros Hinv Hp. destruct op as [k x|k|k].
  - rewrite exec_Insert. intros H.
    destruct (hashmap_insert_inv _ _ _ _ _ _ _ H)
      as (g & Hg & Hcase).
    assert (Hpg : placed siphash g).
    { destruct (grow_cases _ _ _ Hinv Hg)
        as [[_ ->]|(_ & _ & _ & _ & _ & Hblank)];
        [assumption|by apply placed_no_node]. }
    destruct Hcase as [(_ & _ & ?)|(es & c & c' & He & _ & Hl & Hc & ?)];
      simplify_eq; [assumption|].
    destruct k as [k|]; [|by rewrite chain_insert_null_key in Hc].
    apply (placed_set_slot g es _ c c'); [assumption..|].
    intros e He'. destruct (chain_insert_elems _ _ _ _ _ _ Hc He') as [<-|?];
      auto.
  - rewrite exec_Get. by intros [_ ->].
  - rewrite exec_Remove. intros H.
    destruct (hashmap_remove_inv _ _ _ _ _ H)
      as [(_ & _ & ?)|(es & c & c' & He & _ & Hl & Hc & ?)];
      simplify_eq; [assumption|].
    apply (placed_set_slot m es _ c c'); [assumption..|].
    intros e He'. right.
    eapply elem_of_sublist; [exact He'|]. eapply chain_remove_sublist, Hc.
Qed.

Lemma reachable_placed m : reachable siphash m -> placed siphash m.
Proof.
  induction 1 as [rand m H|rand c n m Hn H|r op m v m' Hm IH H].
  - apply placed_no_node. apply hashmap_new_fields in H as (_ & _ & ->).
    constructor.
  - apply placed_no_node.
    destruct (hashmap_with_buckets_inv _ _ _ _ H) as (_ & _ & [[-> _]| ->]);
      cbn; [constructor|].
    apply Forall_replicate. by right.
  - eapply exec_placed; [eapply reachable_inv, Hm|exact IH|exact H].
Qed.

(** A key some node holds is held by the chain of its own bucket. *)
Lemma has_key_own_bucket m k es c :
  placed siphash m -> entries m = Some es ->
  es !! bucket_of siphash m (Some k) = Some (Head c) ->
  has_key m k = chain_has k c.
Proof.
  intros Hp He Hl. unfold has_key. rewrite He. cbn [default].
  destruct (chain_has k c) eqn:Hc.
  - apply existsb_exists. exists (Head c). split; [|exact Hc].
    apply list_elem_of_In. eapply list_elem_of_lookup_2, Hl.
  - apply not_true_is_false. intros Hex.
    apply existsb_exists in Hex as (s & Hs & Hk). cbn in Hs.
    apply list_elem_of_In, list_elem_of_lookup_1 in Hs as [i Hi].
    destruct s as [|ci]; [discriminate|]. cbn in Hk.
    apply existsb_exists in Hk as (e & He' & Hek).
    apply String.eqb_eq in Hek. subst k. apply list_elem_of_In in He'.
    rewrite (Hp es i ci e He Hi He') in Hl. simplify_eq.
    assert (chain_has (key e) c = true); [|congruence].
    apply existsb_exists. exists e. split; [by apply list_elem_of_In|].
    apply String.eqb_refl.
Qed.

Lemma chain_has_keys k c : chain_has k c = true <-> k ∈ (key <$> c).
Proof.
  induction c as [|e c IH]; cbn.
  - split; [discriminate|]. intros H. by apply elem_of_nil in H.
  - rewrite orb_true_iff, elem_of_cons, IH, String.eqb_eq.
    split; intros [H|H]; auto.
Qed.

(** X14. On a table a program can hold, every node is found: for each node
    the table holds, [hashmap_get] of its key returns its value.  No node
    sits in a bucket other than the one its key selects, so none is lost
    to a change of the bucket count. *)
Theorem stored_node_is_found m e :
  reachable siphash m ->
  e ∈ table_nodes m ->
  placed siphash m /\
  hashmap_get siphash (Some m) (Some (key e)) = Ok (value e).
Proof.
  intros Hreach He. pose proof (reachable_placed _ Hreach) as Hp.
  split; [exact Hp|]. apply reachable_inv in Hreach as [_ _ Hnd Hu].
  apply elem_of_table_nodes in He as (es & i & c & Hes & Hi & Hin).
  assert (Hnz : buckets m <> 0).
  { intros Hz. destruct (Hu Hz) as [Hn|Hn]; rewrite Hn in Hes;
      simplify_eq. }
  rewrite <- (Hp es i c e Hes Hi Hin) in Hi.
  rewrite (hashmap_get_at _ _ _ es c) by assumption.
  apply chain_get_nodup; [|assumption].
  rewrite Hes in Hnd. cbn in Hnd.
  apply (Forall_lookup_1 _ _ _ _ Hnd Hi).
Qed.

(** X15. Whatever the table, a value [hashmap_get] returns that is not NULL
    is the value of a node the table holds under that key. *)
Theorem get_returns_stored_value m k v :
  hashmap_get siphash (Some m) (Some k) = Ok v ->
  v <> NULL ->
  exists e, e ∈ table_nodes m /\ key e = k /\ value e = v.
Proof.
  intros H Hv.
  destruct (hashmap_get_inv _ _ _ _ H)
    as [(_ & ?)|(es & c & He & _ & Hl & Hc)]; [contradiction|].
  destruct (chain_get_stored _ _ _ Hc) as [(e & Hin & Hk & Hval)|?];
    [|contradiction].
  exists e. split; [|auto]. apply elem_of_table_nodes. eauto 6.
Qed.

End Placement.

(** ** Who owns a value *)

Lemma perm_focus {A} (before x after : list A) :
  before ++ x ++ after ≡ₚ x ++ before ++ after.
Proof. by rewrite !app_assoc, (Permutation_app_comm before x). Qed.

Lemma blank_no_node (es : list Slot) :
  Forall blank es -> concat (slot_chain <$> es) = [].
Proof.
  induction 1 as [|s es Hs _ IH]; [reflexivity|]. cbn. rewrite IH.
  by destruct Hs as [-> | ->].
Qed.

Lemma blank_no_key (es : list Slot) k :
  Forall blank es -> existsb (slot_has k) es = false.
Proof.
  induction 1 as [|s es Hs _ IH]; [reflexivity|]. cbn. rewrite IH.
  by destruct Hs as [-> | ->].
Qed.

Lemma existsb_insert_same {A} (f : A -> bool) (l : list A) i x y :
  l !! i = Some x -> f y = f x -> existsb f (<[i := y]> l) = existsb f l.
Proof.
  revert i. induction l as [|z l IH]; intros [|i] Hi Hf; try discriminate.
  - cbn in Hi. simplify_eq. cbn. by rewrite Hf.
  - change (<[S i := y]> (z :: l)) with (z :: <[i := y]> l).
    cbn [existsb]. f_equal. by apply IH.
Qed.

Lemma existsb_lookup {A} (f : A -> bool) (l : list A) i x :
  l !! i = Some x -> f x = true -> existsb f l = true.
Proof.
  intros Hi Hf. apply existsb_exists. exists x. split; [|exact Hf].
  apply list_elem_of_In. eapply list_elem_of_lookup_2, Hi.
Qed.

Lemma chain_has_other k k' v c :
  k' <> k ->
  chain_has k' (c ++ [ {| key := k; value := v |} ]) = chain_has k' c.
Proof.
  intros Hne. unfold chain_has. rewrite existsb_app. cbn.
  destruct (String.eqb_spec k k'); [congruence|].
  by rewrite !orb_false_r.
Qed.

Lemma chain_has_same_keys k c c' :
  key <$> c' = key <$> c -> chain_has k c' = chain_has k c.
Proof.
  intros Hk. apply eq_true_iff_eq. by rewrite !chain_has_keys, Hk.
Qed.

Lemma chain_remove_gone c k v c' :
  chain_remove c (Some k) = Ok (v, c') -> NoDup (key <$> c) ->
  k ∉ (key <$> c').
Proof.
  revert v c'. induction c as [|e c IH]; cbn; intros v c' H Hnd.
  - ok_inv. apply not_elem_of_nil.
  - apply NoDup_cons in Hnd as [He Hnd].
    destruct (String.eqb_spec (key e) k) as [<-|Hne].
    + by ok_inv.
    + ok_inv. cbn. rewrite not_elem_of_cons. split; [congruence|eauto].
Qed.

Section Ownership.

Variable siphash : string -> list byte -> nat -> list byte.

(** What one insert does to the nodes of a table. *)
Lemma hashmap_insert_accounts r m k v old m' :
  table_inv m -> placed siphash m ->
  hashmap_insert siphash r (Some m) (Some k) v = Ok (old, Some m') ->
  entries m' <> None ->
  ((has_key m k = true /\
    old :: table_values m' ≡ₚ v :: table_values m /\
    node_count m' = node_count m) \/
   (has_key m k = false /\ old = NULL /\
    table_values m' ≡ₚ v :: table_values m /\
    node_count m' = S (node_count m))) /\
  has_key m' k = true /\
  (forall k', k' <> k -> has_key m' k' = has_key m k').
Proof.
  intros Hinv Hp H Hstored.
  destruct (hashmap_insert_inv _ _ _ _ _ _ _ H)
    as (g & Hg & [(He & _ & ?)|(es & c & c' & He & Hb & Hl & Hc & ?)]);
    simplify_eq; try contradiction.
  set (b := bucket_of siphash g (Some k)) in *.
  (* the table after [hashmap_grow_if_needed] holds what it held *)
  assert (Hsame : table_nodes g = table_nodes m /\
                  (forall k', has_key g k' = has_key m k') /\
                  placed siphash g).
  { destruct (grow_cases _ _ _ Hinv Hg)
      as [[_ ->]|(_ & _ & _ & _ & Hempty & Hblank)]; [auto|].
    unfold table_nodes, has_key. rewrite Hempty. cbn.
    split; [by apply blank_no_node|].
    split; [intros k'; by apply blank_no_key|by apply placed_no_node]. }
  destruct Hsame as (Hnodes & Hkeys & Hpg).
  destruct (nodes_around_slot es b c Hl) as (before & after & Hold & Hnew).
  assert (Hm' : table_nodes
                  (set_entries (Some (<[b := Head c']> es)) g) =
                before ++ c' ++ after) by apply Hnew.
  assert (Hm : table_nodes m = before ++ c ++ after).
  { rewrite <- Hnodes. unfold table_nodes. by rewrite He. }
  assert (Hown : has_key m k = chain_has k c).
  { rewrite <- Hkeys. by apply (has_key_own_bucket siphash g k es c). }
  split; [|split].
  - unfold table_values. rewrite !node_count_length, Hm', Hm.
    rewrite !fmap_app, !length_app.
    destruct (chain_insert_values _ _ _ _ _ Hc)
      as [[Hin Hperm]|(Hnin & -> & ->)].
    + left. split; [by rewrite Hown; apply chain_has_keys|]. split.
      * rewrite (perm_focus (value <$> before) (value <$> c')).
        rewrite (perm_focus (value <$> before) (value <$> c)).
        change (old :: (value <$> c') ++ (value <$> before) ++
                  (value <$> after))
          with ((old :: (value <$> c')) ++ (value <$> before) ++
                  (value <$> after)).
        rewrite Hperm. reflexivity.
      * apply Permutation_length in Hperm. cbn in Hperm.
        rewrite !length_fmap in Hperm. lia.
    + right. split.
      * rewrite Hown. apply not_true_is_false. by rewrite chain_has_keys.
      * split; [reflexivity|]. split.
        -- rewrite fmap_app. cbn.
           rewrite (perm_focus (value <$> before) (value <$> c)).
           rewrite (perm_focus (value <$> before) ((value <$> c) ++ [v])).
           rewrite <- app_assoc. cbn. symmetry. apply Permutation_middle.
        -- rewrite length_app. cbn. lia.
  - unfold has_key. cbn [entries set_entries default].
    apply (existsb_lookup _ _ b (Head c')).
    + apply list_lookup_insert_eq. eapply lookup_lt_Some, Hl.
    + cbn. apply chain_has_keys.
      destruct (chain_insert_keys _ _ _ _ _ Hc) as [[Hin ->]|(_ & _ & ->)];
        [assumption|].
      rewrite fmap_app. apply elem_of_app. right. by left.
  - intros k' Hne. rewrite <- Hkeys. unfold has_key.
    cbn [entries set_entries default]. rewrite He. cbn [default].
    apply (existsb_insert_same _ _ _ (Head c)); [assumption|]. cbn.
    destruct (chain_insert_keys _ _ _ _ _ Hc) as [[_ Hk]|(_ & _ & ->)].
    + by apply chain_has_same_keys.
    + by apply chain_has_other.
Qed.

End Ownership.

Section Transfers.

Variable siphash : string -> list byte -> nat -> list byte.

(** X16. On a table a program can hold, an insert that stored its pair
    hands the table the value [v]: if the key had a node, the old value goes
    back to the caller and the number of nodes stays; otherwise the call
    returns NULL and the table has one node more.  In both cases the values
    the table owns afterwards, with the value returned, are the values it
    owned, with [v]. *)
Theorem insert_transfers_value r m k v old m' :
  reachable siphash m ->
  hashmap_insert siphash r (Some m) (Some k) v = Ok (old, Some m') ->
  entries m' <> None ->
  ((has_key m k = true /\
    old :: table_values m' ≡ₚ v :: table_values m /\
    node_count m' = node_count m) \/
   (has_key m k = false /\ old = NULL /\
    table_values m' ≡ₚ v :: table_values m /\
    node_count m' = S (node_count m))) /\
  has_key m' k = true /\
  (forall k', k' <> k -> has_key m' k' = has_key m k').
Proof.
  intros Hreach. apply hashmap_insert_accounts.
  - eapply reachable_inv, Hreach.
  - apply reachable_placed, Hreach.
Qed.

(** X17. On a table a program can hold, a call [hashmap_remove(t, k)] that
    returns has, for a key that has a node, returned its value and taken it
    out of the values the table owns, leaving one node less; for a key that
    has none it has returned NULL and left the table as it is.  Afterwards no
    node holds the key, and a second [hashmap_remove(t, k)] returns NULL
    without changing the table. *)
Theorem remove_transfers_value m k v m' :
  reachable siphash m ->
  hashmap_remove siphash (Some m) (Some k) = Ok (v, Some m') ->
  ((has_key m k = true /\
    table_values m ≡ₚ v :: table_values m' /\
    node_count m = S (node_count m')) \/
   (has_key m k = false /\ v = NULL /\ m' = m)) /\
  has_key m' k = false /\
  hashmap_remove siphash (Some m') (Some k) = Ok (NULL, Some m').
Proof.
  intros Hreach H.
  pose proof (reachable_inv _ _ Hreach) as Hinv.
  pose proof (reachable_placed _ _ Hreach) as Hp.
  assert (Hreach' : reachable siphash m').
  { eapply (reach_exec siphash ReallocNull (Remove (Some k))); [exact Hreach|].
    apply exec_Remove, H. }
  pose proof (reachable_placed _ _ Hreach') as Hp'.
  destruct (hashmap_remove_inv _ _ _ _ _ H)
    as [(He & -> & ?)|(es & c & c' & He & Hb & Hl & Hc & ?)]; simplify_eq.
  - assert (has_key m k = false) as Hk by (unfold has_key; by rewrite He).
    split; [right; auto|]. split; [assumption|exact H].
  - set (b := bucket_of siphash m (Some k)) in *.
    set (m' := set_entries (Some (<[b := Head c']> es)) m) in *.
    assert (Hlt : (b < length es)%nat) by (eapply lookup_lt_Some, Hl).
    assert (Hl' : <[b := Head c']> es !! b = Some (Head c'))
      by (by apply list_lookup_insert_eq).
    assert (Hnd : NoDup (key <$> c)).
    { pose proof (inv_nodup _ Hinv) as Hall. rewrite He in Hall.
      apply (Forall_lookup_1 _ _ _ _ Hall Hl). }
    assert (Hgone : k ∉ (key <$> c'))
      by (eapply chain_remove_gone; eassumption).
    assert (Hk' : has_key m' k = false).
    { rewrite (has_key_own_bucket siphash m' k (<[b := Head c']> es) c');
        [|assumption|reflexivity|exact Hl'].
      apply not_true_is_false. by rewrite chain_has_keys. }
    split; [|split; [exact Hk'|]].
    + destruct (nodes_around_slot es b c Hl) as (before & after & Hold & Hnew).
      assert (Hm : table_nodes m = before ++ c ++ after)
        by (unfold table_nodes; by rewrite He).
      assert (Hm' : table_nodes m' = before ++ c' ++ after) by apply Hnew.
      destruct (chain_remove_values _ _ _ _ Hc)
        as [[Hin Hperm]|(Hnin & -> & ->)].
      * left. split.
        { rewrite (has_key_own_bucket siphash m k es c) by assumption.
          by apply chain_has_keys. }
        unfold table_values. rewrite !node_count_length, Hm, Hm'.
        rewrite !fmap_app, !length_app. split.
        -- rewrite (perm_focus (value <$> before) (value <$> c)).
           rewrite (perm_focus (value <$> before) (value <$> c')).
           rewrite Hperm. reflexivity.
        -- apply Permutation_length in Hperm. cbn in Hperm.
           rewrite !length_fmap in Hperm. lia.
      * right. split.
        { rewrite (has_key_own_bucket siphash m k es c) by assumption.
          apply not_true_is_false. by rewrite chain_has_keys. }
        split; [reflexivity|]. unfold m'.
        rewrite list_insert_id by assumption.
        by rewrite <- He, set_entries_same.
    + rewrite (hashmap_remove_at _ _ _ (<[b := Head c']> es) c');
        [|reflexivity|assumption|exact Hl'].
      rewrite chain_remove_absent by assumption. cbn.
      change (bucket_of siphash m' (Some k)) with b.
      rewrite list_insert_insert_eq. reflexivity.
Qed.

Lemma run_inserts_stored (l : list (ReallocResult * string * voidp)) :
  forall m rs m',
    table_inv m -> placed siphash m ->
    NoDup (call_key <$> l) ->
    (forall x, x ∈ l -> has_key m (call_key x) = false) ->
    run siphash (insert_call <$> l) m = Ok (rs, m') ->
    entries m' <> None ->
    rs = replicate (length l) NULL /\
    node_count m' = (node_count m + length l)%nat /\
    (forall x, x ∈ l ->
       hashmap_get siphash (Some m') (Some (call_key x)) =
       Ok (call_value x)) /\
    (forall k', k' ∉ (call_key <$> l) -> buckets m <> 0 ->
       hashmap_get siphash (Some m') (Some k') =
       hashmap_get siphash (Some m) (Some k')).
Proof.
  induction l as [|[[r k] v] l IH]; intros m rs m' Hinv Hp Hnd Hnew Hrun Hst.
  - cbn in Hrun. ok_inv. repeat split; auto.
    intros x Hx. by apply elem_of_nil in Hx.
  - cbn [fmap list_fmap run insert_call fst snd] in Hrun. ok_inv.
    match goal with
    | Hx : exec siphash _ _ _ = Ok (?old, ?m1) |- _ =>
        rename Hx into Hex; rename m1 into m1'; rename old into old'
    end.
    match goal with
    | Hx : run siphash _ _ = Ok (?rest, _) |- _ =>
        rename Hx into Hrest; rename rest into rest'
    end.
    pose proof Hex as Hins. apply exec_Insert in Hins.
    destruct (hashmap_insert_preserves _ _ _ _ _ _ _ Hinv Hins) as [Hinv1 Hnz1].
    pose proof (exec_placed _ _ _ _ _ _ Hinv Hp Hex) as Hp1.
    assert (Hst1 : entries m1' <> None).
    { intros Hnone.
      rewrite (run_inert siphash _ m1') in Hrest.
      - ok_inv; try contradiction.
      - unfold inert. rewrite Hnone. by destruct (N.eqb_spec (buckets m1') 0).
      - apply load_factor_low; [apply Hinv1|assumption|apply Hinv1]. }
    cbn in Hnd. apply NoDup_cons in Hnd as [Hk Hnd].
    destruct (hashmap_insert_accounts _ _ _ _ _ _ _ Hinv Hp Hins Hst1)
      as (Hcase & Hhas & Hothers).
    destruct Hcase as [(Hold & _)|(_ & -> & _ & Hcount)].
    { pose proof (Hnew (r, k, v) ltac:(left)) as Hfresh.
      cbn in Hfresh. congruence. }
    destruct (IH m1' rest' m' Hinv1 Hp1 Hnd) as (-> & Hn & Hget & Hframe);
      [|assumption|assumption|].
    { intros x Hx. rewrite Hothers; [apply Hnew; by right|].
      intros Heq. apply Hk. rewrite <- Heq. by apply list_elem_of_fmap_2. }
    split; [reflexivity|]. split; [cbn; lia|]. split.
    + intros x Hx. apply elem_of_cons in Hx as [->|Hx]; [|by apply Hget].
      cbn [call_key call_value fst snd].
      rewrite Hframe by assumption.
      eapply hashmap_get_after_insert; eassumption.
    + intros k' Hk' Hnz. cbn in Hk'. apply not_elem_of_cons in Hk' as [Hne Hk'].
      rewrite Hframe by assumption.
      by apply (hashmap_insert_get_other siphash r m k k' v NULL m1').
Qed.

(** X18. On a table a program can hold, inserting pairs whose keys differ
    from one another and from every key the table holds, with storage in
    place at the end, returns NULL each time, adds one node per pair, and
    leaves every pair to be found by [hashmap_get] (the count that [len]
    was meant to keep). *)
Theorem distinct_inserts_are_stored m l rs m' :
  reachable siphash m ->
  NoDup (call_key <$> l) ->
  (forall x, x ∈ l -> has_key m (call_key x) = false) ->
  run siphash (insert_call <$> l) m = Ok (rs, m') ->
  entries m' <> None ->
  rs = replicate (length l) NULL /\
  node_count m' = (node_count m + length l)%nat /\
  (forall x, x ∈ l ->
     hashmap_get siphash (Some m') (Some (call_key x)) = Ok (call_value x)).
Proof.
  intros Hreach Hnd Hnew Hrun Hst.
  destruct (run_inserts_stored l m rs m') as (Hrs & Hn & Hget & _); auto.
  - eapply reachable_inv, Hreach.
  - apply reachable_placed, Hreach.
Qed.

End Transfers.

(** ** The further properties on explicit tables *)

Lemma one_key_table_reachable : reachable sample_siphash one_key_table.
Proof.
  apply (reach_exec sample_siphash zero_filled
           (Insert (Some "key1"%string) 5) fresh_table NULL).
  - apply (reach_new sample_siphash (fun _ => 0)). reflexivity.
  - vm_compute. reflexivity.
Defined.

Lemma hashmap_grow_keeps_slots_witness :
  exists es',
    hashmap_grow uncleared (Some one_key_table) 16 =
      Ok (Some {| len := len one_key_table; buckets := 16;
                  secret := secret one_key_table; entries := Some es' |}) /\
    length es' = N.to_nat 16 /\
    (forall i s,
       default [] (entries one_key_table) !! i = Some s ->
       es' !! i = Some s) /\
    (forall i,
       (length (default [] (entries one_key_table)) <= i < N.to_nat 16)%nat ->
       es' !! i = Some (slot_of_word Garbage)).
Proof.
  apply (hashmap_grow_keeps_slots (fun _ => Garbage) one_key_table 16).
  - reflexivity.
  - reflexivity.
  - vm_compute. lia.
Defined.


Lemma failed_growth_is_final_witness :
  exec sample_siphash ReallocNull (Insert (Some "key1"%string) 5)
    fresh_table = Ok (NULL, failed_table) /\
  run sample_siphash
    [(zero_filled, Insert (Some "key2"%string) 6);
     (zero_filled, Get (Some "key2"%string))] failed_table =
  Ok ([NULL; NULL], failed_table).
Proof.
  apply (failed_growth_is_final sample_siphash (Some "key1"%string) 5
           fresh_table
           [(zero_filled, Insert (Some "key2"%string) 6);
            (zero_filled, Get (Some "key2"%string))]).
  - apply (reach_new sample_siphash (fun _ => 0)). reflexivity.
  - reflexivity.
Defined.

Lemma hashmap_free_after_failed_growth_witness :
  hashmap_free (Some (Some failed_table)) = Fault NullDeref.
Proof. apply (hashmap_free_after_failed_growth failed_table). reflexivity. Defined.

Lemma hashmap_free_releases_all_witness :
  hashmap_free (Some (Some two_key_table)) =
    Ok (table_nodes two_key_table, Some None) /\
  hashmap_free (Some None) = Ok ([], Some None) /\
  hashmap_free None = Ok ([], None).
Proof.
  apply (hashmap_free_releases_all two_key_table). vm_compute. reflexivity.
Defined.

Lemma hashmap_free_reads_every_slot_witness :
  exists f, hashmap_free (Some (Some patchy_table)) = Fault f.
Proof.
  apply (hashmap_free_reads_every_slot patchy_table
           (default [] (entries patchy_table)) 0).
  - vm_compute. reflexivity.
  - vm_compute. reflexivity.
  - vm_compute. reflexivity.
Defined.

Lemma hashmap_with_buckets_makes_empty_chains_witness :
  exists m,
    hashmap_with_buckets true (fun _ => 0) CallocBlock 4 = Ok (Some m) /\
    len m = 0 /\ buckets m = 4 /\
    entries m = Some (replicate (N.to_nat 4) (Head [])) /\
    table_nodes m = [] /\
    (0 < 4 -> usable m = true).
Proof.
  apply (hashmap_with_buckets_makes_empty_chains (fun _ => 0) 4).
  reflexivity.
Defined.

Lemma hashmap_with_buckets_unchecked_calloc_witness :
  hashmap_with_buckets true (fun _ => 0) CallocNull 4 = Fault NullDeref /\
  hashmap_with_buckets false (fun _ => 0) CallocNull 4 = Ok None.
Proof.
  apply (hashmap_with_buckets_unchecked_calloc (fun _ => 0) CallocNull 4).
  - reflexivity.
  - left. reflexivity.
Defined.

Lemma calls_run_without_fault_witness :
  exists rs m',
    run sample_siphash
      [(zero_filled, Insert (Some "key1"%string) 5);
       (ReallocNull, Get (Some "key2"%string));
       (zero_filled, Remove (Some "key1"%string))] fresh_table =
    Ok (rs, m') /\ sound m' = true.
Proof.
  apply (calls_run_without_fault sample_siphash fresh_table).
  - apply (reach_new sample_siphash (fun _ => 0)). reflexivity.
  - reflexivity.
  - constructor; [split; [right; reflexivity|reflexivity]|].
    constructor; [split; [left; reflexivity|reflexivity]|].
    constructor; [split; [right; reflexivity|reflexivity]|].
    constructor.
Defined.

Lemma remove_keeps_other_keys_witness :
  hashmap_get sample_siphash
    (Some (table_after sample_siphash
             [(uncleared, Remove (Some "key1"%string))] two_key_table))
    (Some "key2"%string) =
  hashmap_get sample_siphash (Some two_key_table) (Some "key2"%string).
Proof.
  apply (remove_keeps_other_keys sample_siphash two_key_table
           "key1" "key2" 5).
  - vm_compute. reflexivity.
  - discriminate.
Defined.

Lemma insert_keeps_other_keys_witness :
  (buckets one_key_table <> 0 ->
   hashmap_get sample_siphash (Some two_key_table) (Some "key1"%string) =
   hashmap_get sample_siphash (Some one_key_table) (Some "key1"%string)) /\
  (buckets one_key_table = 0 ->
   forall x,
     hashmap_get sample_siphash (Some two_key_table) (Some "key1"%string) =
     Ok x -> x = NULL).
Proof.
  apply (insert_keeps_other_keys sample_siphash zero_filled one_key_table
           "key2" "key1" 6 NULL).
  - exact one_key_table_reachable.
  - vm_compute. reflexivity.
  - discriminate.
Defined.

Lemma stored_node_is_found_witness :
  placed sample_siphash one_key_table /\
  hashmap_get sample_siphash (Some one_key_table) (Some "key1"%string) =
  Ok 5.
Proof.
  apply (stored_node_is_found sample_siphash one_key_table
           {| key := "key1"; value := 5 |}).
  - exact one_key_table_reachable.
  - replace (table_nodes one_key_table)
      with [ {| key := "key1"%string; value := 5 |} ]
      by (vm_compute; reflexivity).
    left.
Defined.

Lemma get_returns_stored_value_witness :
  exists e,
    e ∈ table_nodes one_key_table /\ key e = "key1"%string /\ value e = 5.
Proof.
  apply (get_returns_stored_value sample_siphash one_key_table "key1" 5).
  - vm_compute. reflexivity.
  - discriminate.
Defined.

Lemma insert_transfers_value_witness :
  ((has_key one_key_table "key1" = true /\
    5 :: table_values
           (table_after sample_siphash
              [(uncleared, Insert (Some "key1"%string) 7)] one_key_table)
      ≡ₚ 7 :: table_values one_key_table /\
    node_count
      (table_after sample_siphash
         [(uncleared, Insert (Some "key1"%string) 7)] one_key_table) =
    node_count one_key_table) \/
   (has_key one_key_table "key1" = false /\ 5 = NULL /\
    table_values
      (table_after sample_siphash
         [(uncleared, Insert (Some "key1"%string) 7)] one_key_table)
      ≡ₚ 7 :: table_values one_key_table /\
    node_count
      (table_after sample_siphash
         [(uncleared, Insert (Some "key1"%string) 7)] one_key_table) =
    S (node_count one_key_table))) /\
  has_key
    (table_after sample_siphash
       [(uncleared, Insert (Some "key1"%string) 7)] one_key_table)
    "key1" = true /\
  (forall k',
     k' <> "key1"%string ->
     has_key
       (table_after sample_siphash
          [(uncleared, Insert (Some "key1"%string) 7)] one_key_table) k' =
     has_key one_key_table k').
Proof.
  apply (insert_transfers_value sample_siphash uncleared one_key_table
           "key1" 7 5).
  - exact one_key_table_reachable.
  - vm_compute. reflexivity.
  - vm_compute. discriminate.
Defined.

Lemma remove_transfers_value_witness :
  ((has_key one_key_table "key1" = true /\
    table_values one_key_table ≡ₚ
      5 :: table_values
             (table_after sample_siphash
                [(uncleared, Remove (Some "key1"%string))] one_key_table) /\
    node_count one_key_table =
    S (node_count
         (table_after sample_siphash
            [(uncleared, Remove (Some "key1"%string))] one_key_table))) \/
   (has_key one_key_table "key1" = false /\ 5 = NULL /\
    table_after sample_siphash
      [(uncleared, Remove (Some "key1"%string))] one_key_table =
    one_key_table)) /\
  has_key
    (table_after sample_siphash
       [(uncleared, Remove (Some "key1"%string))] one_key_table)
    "key1" = false /\
  hashmap_remove sample_siphash
    (Some (table_after sample_siphash
             [(uncleared, Remove (Some "key1"%string))] one_key_table))
    (Some "key1"%string) =
  Ok (NULL,
      Some (table_after sample_siphash
              [(uncleared, Remove (Some "key1"%string))] one_key_table)).
Proof.
  apply (remove_transfers_value sample_siphash one_key_table "key1" 5).
  - exact one_key_table_reachable.
  - vm_compute. reflexivity.
Defined.

Lemma distinct_inserts_are_stored_witness :
  [NULL; NULL] =
    replicate
      (length [(zero_filled, "key1"%string, 5%N);
               (uncleared, "key2"%string, 6%N)]) NULL /\
  node_count two_key_table =
    (node_count fresh_table +
     length [(zero_filled, "key1"%string, 5%N);
             (uncleared, "key2"%string, 6%N)])%nat /\
  (forall x,
     x ∈ [(zero_filled, "key1"%string, 5%N);
          (uncleared, "key2"%string, 6%N)] ->
     hashmap_get sample_siphash (Some two_key_table) (Some (call_key x)) =
     Ok (call_value x)).
Proof.
  apply (distinct_inserts_are_stored sample_siphash fresh_table
           [(zero_filled, "key1"%string, 5%N);
            (uncleared, "key2"%string, 6%N)]).
  - apply (reach_new sample_siphash (fun _ => 0)). reflexivity.
  - cbn. apply NoDup_cons. split; [|apply NoDup_singleton].
    intros H. apply list_elem_of_singleton in H. discriminate.
  - intros x _. reflexivity.
  - vm_compute. reflexivity.
  - vm_compute. discriminate.
Defined.
